(** * Session refresh and authentication store of the admin dashboard client

    A shallow embedding of [src/services/api.js] (the [ApiService.request]
    method with its token-refresh protocol) and of the zustand auth store
    ([useAuthStore]), together with the properties the specification states
    about them.

    JavaScript values are modelled as follows.
    - A string-valued property that may be missing is an [option string];
      truthiness of such a value (missing or empty is falsy) is [truthy].
    - An [Error] object is its [message].
    - A parsed JSON body is a [Value]: [null], or the record [Json] of the
      properties the code reads.  Reading a property of [null] throws.
    - The task map of pending [request] calls is a [gmap] from call ids. *)

From Stdlib Require Import String Ascii List Bool Arith Lia DecimalString.
From stdpp Require Import base option list gmap.

Import ListNotations.
Open Scope string_scope.
Open Scope list_scope.
Open Scope nat_scope.

(** ** JavaScript helpers *)

Module JS.

(** [s.includes(sub)]: [sub] occurs in [s] as a contiguous substring. *)
Fixpoint includes (s sub : string) : bool :=
  String.prefix sub s ||
  match s with
  | EmptyString => false
  | String _ s' => includes s' sub
  end.

(** [if (v) yes(v) else no] for a possibly missing string [v]: a missing
    value and the empty string are falsy. *)
Definition if_truthy {A : Type} (v : option string) (yes : string -> A) (no : A) : A :=
  match v with
  | Some s => if String.eqb s "" then no else yes s
  | None => no
  end.

Definition truthy (v : option string) : bool :=
  if_truthy v (fun _ => true) false.

(** [v || d] for a possibly missing string [v] and a string [d]. *)
Definition or_else (v : option string) (d : string) : string :=
  if_truthy v (fun s => s) d.

(** Template-literal rendering of a value that is a string or [null]. *)
Definition show (v : option string) : string :=
  match v with
  | Some s => s
  | None => "null"
  end.

(** Template-literal rendering of a non-negative integer. *)
Definition show_nat (n : nat) : string :=
  NilZero.string_of_uint (Nat.to_uint n).

End JS.

(** ** Data exchanged with the backend *)

(** A JavaScript [Error]; only its [message] is ever inspected. *)
Record Error := mkError { message : string }.

(** The backend's user record; every property may be missing. *)
Record BackendUser := mkBackendUser {
  _id : option string;
  fullname : option string;
  bu_email : option string;
  bu_username : option string;
  bu_avatar : option string;
  bu_role : option string
}.

(** The [data] member of a response body. *)
Record Data := mkData {
  data_user : option BackendUser;
  data_accessToken : option string
}.

(** A parsed response body, restricted to the properties the client reads. *)
Record Json := mkJson {
  json_message : option string;
  json_data : option Data
}.

(** The empty object [{}]. *)
Definition empty_json : Json := mkJson None None.

(** [body.data?.accessToken] *)
Definition accessToken_of (j : Json) : option string :=
  match json_data j with
  | Some d => data_accessToken d
  | None => None
  end.

(** [body.data?.user] *)
Definition user_of (j : Json) : option BackendUser :=
  match json_data j with
  | Some d => data_user d
  | None => None
  end.

(** What [response.json()] resolves with: [null], or a value whose
    properties can be read.  For the two properties the client reads, a
    number, a string, a boolean or an array is the same as [{}]. *)
Inductive Value :=
| Null
| Obj (j : Json).

Coercion Obj : Json >-> Value.

(** The [TypeError] thrown on reading property [p] of [null].  Its message
    is the engine's; this is the text of V8, which matches none of the
    phrases the store looks for. *)
Definition null_read (p : string) : Error :=
  mkError ("Cannot read properties of null (reading '" ++ p ++ "')").

(** Reading property [p] of [v]: the properties of [v], or the [TypeError]. *)
Definition properties (p : string) (v : Value) : Json + Error :=
  match v with
  | Null => inr (null_read p)
  | Obj j => inl j
  end.

(** ** The HTTP client: [ApiService] in [src/services/api.js]

    [request] is an async function.  Between two suspension points its code
    runs without interleaving, so a call is modelled as a task with a program
    counter ([Pc]) naming the [await] it is suspended at, and the client as an
    event handler: the environment either starts a call ([Call]) or delivers
    the outcome of the fetch a task is waiting for ([Deliver]).  Reading the
    error body ([await response.json().catch(...)], line 45) touches no shared
    state, so a response is delivered together with its parsed body.

    Promise reactions scheduled by [processQueue] are microtasks: they are
    collected in [jobs] and run, in order, when the current synchronous block
    has finished.  The caller's [options] (method, body, own headers) are
    handed to [fetch] unchanged and are not modelled; a logged [Fetch] records
    the URL and the [Authorization] header the client sets. *)

Module Api.

(** Calls are numbered in the order they are made. *)
Abbreviation ReqId := nat (only parsing).

Definition API_BASE_URL : string := "https://gajpati-backend.onrender.com/api/v1".

(** [`${this.baseURL}${endpoint}`] *)
Definition url (ep : string) : string := (API_BASE_URL ++ ep)%string.

(** What [response.json()] yields. *)
Inductive Body :=
| Parsed (v : Value)
| Unparsable (e : Error).

(** Outcome of one [fetch]. *)
Inductive FetchResult :=
| NetFail (e : Error)
| Resp (status : nat) (body : Body).

(** [response.ok] *)
Definition ok (status : nat) : bool := (200 <=? status) && (status <=? 299).

Record Fetch := mkFetch {
  fetch_by : ReqId;
  fetch_url : string;
  fetch_authorization : option string
}.

Inductive Pc :=
| AwaitFetch                                   (* line 42 *)
| AwaitRefresh (status : nat) (errorData : Value) (* line 57 *)
| AwaitRetry                                   (* line 67 *)
| Queued                                       (* lines 92-94 *)
| AwaitQueuedRetry                             (* line 97 *)
| Resolved (v : Value)
| Rejected (e : Error).

(** A call of [request]: its endpoint, the call awaiting its promise (the
    owner of the refresh, for the call made by [refreshToken()] at line 57),
    and where it stands. *)
Record Task := mkTask {
  endpoint : string;
  awaiter : option ReqId;
  pc : Pc
}.

(** Reactions of the promises held in [failedQueue]. *)
Inductive Job :=
| Resolve (q : ReqId) (token : option string)
| Reject (q : ReqId) (e : Error).

Record State := mkState {
  isRefreshing : bool;
  failedQueue : list ReqId;
  authToken : option string;   (* localStorage entry "authToken" *)
  hrefs : list string;         (* assignments to window.location.href, oldest first *)
  fetches : list Fetch;        (* calls of fetch, oldest first *)
  console : list Error;        (* console.error("API request failed:", e) *)
  tasks : gmap ReqId Task;
  next_id : ReqId;
  jobs : list Job
}.

(** The constructor (lines 5-9), with the token found in local storage. *)
Definition init (stored : option string) : State :=
  mkState false [] stored [] [] [] ∅ 0 [].

Definition set_isRefreshing (b : bool) (st : State) : State :=
  mkState b (failedQueue st) (authToken st) (hrefs st) (fetches st)
          (console st) (tasks st) (next_id st) (jobs st).

Definition set_failedQueue (q : list ReqId) (st : State) : State :=
  mkState (isRefreshing st) q (authToken st) (hrefs st) (fetches st)
          (console st) (tasks st) (next_id st) (jobs st).

Definition set_authToken (t : option string) (st : State) : State :=
  mkState (isRefreshing st) (failedQueue st) t (hrefs st) (fetches st)
          (console st) (tasks st) (next_id st) (jobs st).

Definition set_href (h : string) (st : State) : State :=
  mkState (isRefreshing st) (failedQueue st) (authToken st) (hrefs st ++ [h])
          (fetches st) (console st) (tasks st) (next_id st) (jobs st).

Definition do_fetch (f : Fetch) (st : State) : State :=
  mkState (isRefreshing st) (failedQueue st) (authToken st) (hrefs st)
          (fetches st ++ [f]) (console st) (tasks st) (next_id st) (jobs st).

Definition console_error (e : Error) (st : State) : State :=
  mkState (isRefreshing st) (failedQueue st) (authToken st) (hrefs st)
          (fetches st) (console st ++ [e]) (tasks st) (next_id st) (jobs st).

Definition set_task (r : ReqId) (t : Task) (st : State) : State :=
  mkState (isRefreshing st) (failedQueue st) (authToken st) (hrefs st)
          (fetches st) (console st) (<[r := t]> (tasks st)) (next_id st) (jobs st).

Definition set_next_id (n : ReqId) (st : State) : State :=
  mkState (isRefreshing st) (failedQueue st) (authToken st) (hrefs st)
          (fetches st) (console st) (tasks st) n (jobs st).

Definition set_jobs (js : list Job) (st : State) : State :=
  mkState (isRefreshing st) (failedQueue st) (authToken st) (hrefs st)
          (fetches st) (console st) (tasks st) (next_id st) js.

Definition set_pc (r : ReqId) (t : Task) (p : Pc) : State -> State :=
  set_task r (mkTask (endpoint t) (awaiter t) p).

(** [`Bearer ${token}`] *)
Definition bearer (token : option string) : string := ("Bearer " ++ JS.show token)%string.

(** [`HTTP error! status: ${status}`] *)
Definition http_error (status : nat) : string :=
  ("HTTP error! status: " ++ JS.show_nat status)%string.

(** [processQueue(error, token)], lines 11-21. *)
Definition processQueue (error : option Error) (token : option string)
    (st : State) : State :=
  let react prom :=
    match error with
    | Some e => Reject prom e
    | None => Resolve prom token
    end in
  set_failedQueue [] (set_jobs (jobs st ++ map react (failedQueue st)) st).

(** Lines 24-42: build the configuration, attach the stored token when there
    is one, call [fetch] and suspend. *)
Definition request_start (ep : string) (aw : option ReqId) (st : State) : State :=
  let id := next_id st in
  let auth := JS.if_truthy (authToken st) (fun t => Some (bearer (Some t))) None in
  set_next_id (S id)
    (set_task id (mkTask ep aw AwaitFetch)
       (do_fetch (mkFetch id (url ep) auth) st)).

(** The outer handler, lines 120-123: log and rethrow. *)
Definition fail (r : ReqId) (t : Task) (e : Error) (st : State) : State :=
  set_pc r t (Rejected e) (console_error e st).

(** [body.catch(() => ({}))] *)
Definition error_body (b : Body) : Value :=
  match b with
  | Parsed v => v
  | Unparsable _ => Obj empty_json
  end.

(** What [throw new Error(errorData.message || `HTTP error! status: ...`)]
    throws (lines 73-76 and 114-116): the new [Error], or the [TypeError] of
    reading [message] when [errorData] is [null]. *)
Definition http_failure (errorData : Value) (status : nat) : Error :=
  match properties "message" errorData with
  | inl j => mkError (JS.or_else (json_message j) (http_error status))
  | inr e => e
  end.

(** The guard of lines 48-52. *)
Definition wants_refresh (status : nat) (ep : string) : bool :=
  (status =? 401) && negb (JS.includes ep "/refresh-token")
                  && negb (JS.includes ep "/login").

(** What the response to the first fetch amounts to, before any shared
    state is consulted (lines 42-52 and 114-119): the call returns the
    parsed body, throws, or is a 401 that goes to the refresh protocol. *)
Inductive Verdict :=
| Returns (v : Value)
| Throws (e : Error)
| Unauthorized (status : nat) (errorData : Value).

Definition verdict (ep : string) (fr : FetchResult) : Verdict :=
  match fr with
  | NetFail e => Throws e
  | Resp status body =>
      if ok status then
        match body with
        | Parsed v => Returns v
        | Unparsable e => Throws e
        end
      else
        let errorData := error_body body in
        if wants_refresh status ep then Unauthorized status errorData
        else Throws (http_failure errorData status)
  end.

(** Lines 42-55, 90-94 and 114-123: the response to the first fetch. *)
Definition after_fetch (r : ReqId) (t : Task) (fr : FetchResult) (st : State) : State :=
  match verdict (endpoint t) fr with
  | Returns v => set_pc r t (Resolved v) st
  | Throws e => fail r t e st
  | Unauthorized status errorData =>
      if negb (isRefreshing st) then
        set_pc r t (AwaitRefresh status errorData)
          (request_start "/users/refresh-token" (Some r)
             (set_isRefreshing true st))
      else
        set_pc r t Queued (set_failedQueue (failedQueue st ++ [r]) st)
  end.

(** Lines 81-89: the handler of the refresh block, followed by its
    [finally] and the outer handler. *)
Definition refresh_failed (o : ReqId) (t : Task) (refreshError : Error)
    (st : State) : State :=
  fail o t refreshError
    (set_isRefreshing false
       (set_href "/login"
          (set_authToken None
             (processQueue (Some refreshError) None st)))).

(** Lines 57-67 and 87-89, 114-116: the owner resumes with the outcome of
    [refreshToken()].  Reading [data] of a [null] response throws inside
    the block, as does a rejected call. *)
Definition after_refresh (o : ReqId) (t : Task) (status : nat) (errorData : Value)
    (outcome : Value + Error) (st : State) : State :=
  match outcome with
  | inl refreshResponse =>
      match properties "data" refreshResponse with
      | inl body =>
          JS.if_truthy (accessToken_of body)
            (fun tok =>
               set_pc o t AwaitRetry
                 (do_fetch (mkFetch o (url (endpoint t)) (Some (bearer (Some tok))))
                    (processQueue None (Some tok)
                       (set_authToken (Some tok) st))))
            (fail o t (http_failure errorData status) (set_isRefreshing false st))
      | inr typeError => refresh_failed o t typeError st
      end
  | inr refreshError => refresh_failed o t refreshError st
  end.

(** Lines 67-79: the owner's retry; whatever it throws is caught at line 81. *)
Definition after_retry (o : ReqId) (t : Task) (fr : FetchResult) (st : State) : State :=
  match fr with
  | NetFail e => refresh_failed o t e st
  | Resp status body =>
      if ok status then
        match body with
        | Parsed v => set_pc o t (Resolved v) (set_isRefreshing false st)
        | Unparsable e => refresh_failed o t e st
        end
      else
        let retryErrorData := error_body body in
        refresh_failed o t (http_failure retryErrorData status) st
  end.

(** Lines 97-110: the retry of a queued call.  At line 99 [errorData] is the
    promise returned by [.catch(...)], which is not awaited: its [message]
    property is [undefined]. *)
Definition after_queued_retry (q : ReqId) (t : Task) (fr : FetchResult)
    (st : State) : State :=
  match fr with
  | NetFail e => set_pc q t (Rejected e) st
  | Resp status body =>
      if ok status then
        match body with
        | Parsed v => set_pc q t (Resolved v) st
        | Unparsable e => set_pc q t (Rejected e) st
        end
      else
        let errorData_message : option string := None in
        set_pc q t (Rejected (mkError (JS.or_else errorData_message (http_error status)))) st
  end.

(** A call that has settled wakes the call awaiting it. *)
Definition resume_awaiter (r : ReqId) (st : State) : State :=
  match tasks st !! r with
  | Some c =>
      match awaiter c with
      | Some o =>
          match tasks st !! o with
          | Some t =>
              match pc t, pc c with
              | AwaitRefresh status errorData, Resolved v =>
                  after_refresh o t status errorData (inl v) st
              | AwaitRefresh status errorData, Rejected e =>
                  after_refresh o t status errorData (inr e) st
              | _, _ => st
              end
          | None => st
          end
      | None => st
      end
  | None => st
  end.

(** The network delivers the outcome of the fetch that call [r] awaits. *)
Definition deliver (r : ReqId) (fr : FetchResult) (st : State) : State :=
  match tasks st !! r with
  | Some t =>
      match pc t with
      | AwaitFetch => resume_awaiter r (after_fetch r t fr st)
      | AwaitRetry => after_retry r t fr st
      | AwaitQueuedRetry => after_queued_retry r t fr st
      | AwaitRefresh _ _ | Queued | Resolved _ | Rejected _ => st
      end
  | None => st
  end.

(** One promise reaction: lines 95-97 when the queued promise is resolved,
    lines 108-110 when it is rejected. *)
Definition run_job (st : State) (j : Job) : State :=
  match j with
  | Resolve q token =>
      match tasks st !! q with
      | Some t =>
          match pc t with
          | Queued =>
              set_pc q t AwaitQueuedRetry
                (do_fetch (mkFetch q (url (endpoint t)) (Some (bearer token))) st)
          | _ => st
          end
      | None => st
      end
  | Reject q e =>
      match tasks st !! q with
      | Some t =>
          match pc t with
          | Queued => set_pc q t (Rejected e) st
          | _ => st
          end
      | None => st
      end
  end.

Definition run_jobs (st : State) : State :=
  fold_left run_job (jobs st) (set_jobs [] st).

Inductive Event :=
| Call (ep : string)
| Deliver (r : ReqId) (fr : FetchResult).

Definition handle (ev : Event) (st : State) : State :=
  match ev with
  | Call ep => request_start ep None st
  | Deliver r fr => deliver r fr st
  end.

Definition step (st : State) (ev : Event) : State := run_jobs (handle ev st).

Definition run (evs : list Event) (st : State) : State := fold_left step evs st.

(** *** Vocabulary for the statements *)

(** Where call [r] stands. *)
Definition pc_of (st : State) (r : ReqId) : option Pc := pc <$> tasks st !! r.

(** The endpoint of call [r]. *)
Definition endpoint_at (st : State) (r : ReqId) : string :=
  from_option endpoint "" (tasks st !! r).

(** Call [r] is parked in the queue (its promise is pending). *)
Definition is_queued (st : State) (r : ReqId) : bool :=
  match pc_of st r with
  | Some Queued => true
  | _ => false
  end.

(** Call [r] awaits its first response and would go to the refresh protocol
    on a 401. *)
Definition awaits_first (st : State) (r : ReqId) : bool :=
  match tasks st !! r with
  | Some t =>
      match pc t with
      | AwaitFetch => wants_refresh 401 (endpoint t)
      | _ => false
      end
  | None => false
  end.

(** Call [r] has been issued a retry and awaits its response. *)
Definition awaits_retry (st : State) (r : ReqId) : bool :=
  match pc_of st r with
  | Some AwaitRetry | Some AwaitQueuedRetry => true
  | _ => false
  end.

(** Call [r] has settled. *)
Definition has_settled (st : State) (r : ReqId) : bool :=
  match pc_of st r with
  | Some (Resolved _) | Some (Rejected _) => true
  | _ => false
  end.

(** The refresh call [child], made on behalf of [o], is in flight, and the
    queue holds parked calls, each once. *)
Definition refresh_pending (st : State) (o child : ReqId) : Prop :=
  tasks st !! child = Some (mkTask "/users/refresh-token" (Some o) AwaitFetch) /\
  (exists status errorData, pc_of st o = Some (AwaitRefresh status errorData)) /\
  forallb (is_queued st) (failedQueue st) = true /\
  NoDup (failedQueue st) /\
  jobs st = [].

(** Call ids at or above [next_id] are unused. *)
Definition ids_unused (st : State) : Prop :=
  forall id, next_id st <= id -> tasks st !! id = None.

(** No reaction is left to run and the queue holds parked calls, each once. *)
Definition parked (st : State) : Prop :=
  jobs st = [] /\ NoDup (failedQueue st) /\
  forallb (is_queued st) (failedQueue st) = true.

(** What holds of the client between two events. *)
Definition well_formed (st : State) : Prop :=
  jobs st = [] /\
  ids_unused st /\
  NoDup (failedQueue st) /\
  forallb (is_queued st) (failedQueue st) = true.

(** What holds when a handler has run and the reactions have not yet:
    either none is scheduled, or the queue has just been emptied. *)
Definition settling (st : State) : Prop :=
  ids_unused st /\ (parked st \/ failedQueue st = []).

(** [st'] differs from [st] in the task of [r] and in fields the queue
    discipline does not depend on. *)
Definition touches (r : ReqId) (st st' : State) : Prop :=
  next_id st' = next_id st /\ failedQueue st' = failedQueue st /\
  jobs st' = jobs st /\ exists t', tasks st' = <[r := t']> (tasks st).

(** The task map in which the calls [rs] have moved to [p]. *)
Definition retag (p : Pc) (rs : list ReqId) (m : gmap ReqId Task) : gmap ReqId Task :=
  fold_left
    (fun m r =>
       match m !! r with
       | Some t => <[r := mkTask (endpoint t) (awaiter t) p]> m
       | None => m
       end)
    rs m.

(** Two states that differ at most in their tasks. *)
Definition same_world (st st' : State) : Prop :=
  isRefreshing st' = isRefreshing st /\
  failedQueue st' = failedQueue st /\
  authToken st' = authToken st /\
  hrefs st' = hrefs st /\
  fetches st' = fetches st /\
  console st' = console st /\
  next_id st' = next_id st /\
  jobs st' = jobs st.

(** The 401 responses of a burst: one per call, each with its own body. *)
Definition unauthorized (bodies : ReqId -> Body) (rs : list ReqId) : list Event :=
  map (fun r => Deliver r (Resp 401 (bodies r))) rs.

(** The retry of call [r] with the refreshed token (lines 66-67 and
    96-97): the same URL, with the header ["Bearer <token>"]. *)
Definition retry_of (st : State) (tok : string) (r : ReqId) : Fetch :=
  mkFetch r ("https://gajpati-backend.onrender.com/api/v1" ++ endpoint_at st r)
          (Some ("Bearer " ++ tok)%string).

(** The fetches that go to the refresh endpoint. *)
Definition refresh_calls (fs : list Fetch) : list Fetch :=
  filter (fun f => fetch_url f =
                     "https://gajpati-backend.onrender.com/api/v1/users/refresh-token") fs.

End Api.

(** ** The session store: [useAuthStore]

    Every operation is an async function over the zustand state
    ([Session]), local storage and the API client.  One operation is run at a
    time; it is a computation in the monad [M], which threads the [World] and
    carries a thrown [Error].  What an [apiService] call does is given by the
    environment ([backend]): how its promise settles and what the client's
    refresh protocol did to the stored token meanwhile.  The [calls] log
    records each call, so the number of network round trips of an operation
    can be read off. *)

Module AuthStore.

Record UserProfile := mkUser {
  id : option string;
  name : option string;
  email : option string;
  username : option string;
  avatar : option string;
  role : string
}.

Record Session := mkSession {
  user : option UserProfile;
  isAuthenticated : bool;
  isLoading : bool
}.

(** The object handed to zustand's [set]: the listed properties replace the
    old ones, the others are kept. *)
Record Patch := mkPatch {
  p_user : option (option UserProfile);
  p_isAuthenticated : option bool;
  p_isLoading : option bool
}.

Definition merge (p : Patch) (s : Session) : Session :=
  mkSession (default (user s) (p_user p))
            (default (isAuthenticated s) (p_isAuthenticated p))
            (default (isLoading s) (p_isLoading p)).

(** The store's initial state (lines 5-7). *)
Definition initial : Session := mkSession None false false.

(** The methods of [apiService] the store calls, with their JSON-encoded
    arguments. *)
Inductive ApiMethod :=
| ApiLogin (credentials : string)
| ApiRegister (userData : string)
| ApiLogout
| ApiRefreshToken
| ApiGetCurrentUser.

(** The endpoint each method requests (api.js, lines 127-157). *)
Definition endpoint_of (m : ApiMethod) : string :=
  match m with
  | ApiLogin _ => "/users/login"
  | ApiRegister _ => "/users/register"
  | ApiLogout => "/users/logout"
  | ApiRefreshToken => "/users/refresh-token"
  | ApiGetCurrentUser => "/users/me"
  end.

(** How one API call ends: the value or error its promise settles with, and
    what became of the stored token while it was pending. *)
Record ApiReply := mkReply {
  settled : Value + Error;
  storage : option string -> option string
}.

Record World := mkWorld {
  session : Session;
  authToken : option string;          (* localStorage entry "authToken" *)
  calls : list ApiMethod;             (* apiService calls, oldest first *)
  console : list (string * Error)     (* console.error(label, error) *)
}.

(** What an operation returns: [{ success, user, error, message }]. *)
Record Result := mkResult {
  success : bool;
  res_user : option UserProfile;
  res_error : option string;
  res_message : option string
}.

Definition M (A : Type) : Type := World -> World * (A + Error).

Definition ret {A} (a : A) : M A := fun w => (w, inl a).

Definition throw {A} (e : Error) : M A := fun w => (w, inr e).

Definition bind {A B} (c : M A) (k : A -> M B) : M B :=
  fun w =>
    match c w with
    | (w', inl a) => k a w'
    | (w', inr e) => (w', inr e)
    end.

(** [try { c } catch (error) { h error }] *)
Definition try_catch {A} (c : M A) (h : Error -> M A) : M A :=
  fun w =>
    match c w with
    | (w', inl a) => (w', inl a)
    | (w', inr e) => h e w'
    end.

(** [try { c } finally { f }] *)
Definition try_finally {A} (c : M A) (f : M unit) : M A :=
  fun w =>
    match c w with
    | (w', r) =>
        match f w' with
        | (w'', inl _) => (w'', r)
        | (w'', inr e) => (w'', inr e)
        end
    end.

Declare Scope store_scope.
Delimit Scope store_scope with store.
Notation "x <- c ;; k" := (bind c (fun x => k))
  (at level 100, c at next level, right associativity) : store_scope.
Notation "c ;; k" := (bind c (fun _ => k))
  (at level 100, right associativity) : store_scope.
Local Open Scope store_scope.

(** [set(patch)] *)
Definition set (p : Patch) : M unit :=
  fun w => (mkWorld (merge p (session w)) (authToken w) (calls w) (console w), inl tt).

(** [localStorage.getItem("authToken")] *)
Definition getItem : M (option string) := fun w => (w, inl (authToken w)).

Definition put_token (t : option string) : M unit :=
  fun w => (mkWorld (session w) t (calls w) (console w), inl tt).

(** [localStorage.setItem("authToken", tok)] *)
Definition setItem (tok : string) : M unit := put_token (Some tok).

(** [localStorage.removeItem("authToken")] *)
Definition removeItem : M unit := put_token None.

Definition console_error (label : string) (e : Error) : M unit :=
  fun w => (mkWorld (session w) (authToken w) (calls w) (console w ++ [(label, e)]), inl tt).

(** [response.p], for the first property [p] read of a response: the
    properties of the response, or the [TypeError] thrown when it is [null]. *)
Definition read (p : string) (response : Value) : M Json :=
  fun w => (w, properties p response).

(** The projection of a backend user record (lines 15-22 and 130-137). *)
Definition project (u : BackendUser) : UserProfile :=
  mkUser (_id u) (fullname u) (bu_email u) (bu_username u) (bu_avatar u)
         (JS.or_else (bu_role u) "user").

(** Lines 37-49. *)
Definition login_error_message (m : string) : string :=
  if JS.includes m "User does not exist" then
    "User not found. Please check your credentials."
  else if JS.includes m "Invalid user credentials" then
    "Invalid username or password."
  else if JS.includes m "Account is deactivated" then
    "Your account has been deactivated. Please contact admin."
  else if JS.includes m "Too many requests" then
    "Too many login attempts. Please try again later."
  else m.

(** Lines 66-88. *)
Definition signup_error_message (m : string) : string :=
  if JS.includes m "Username can only contain letters, numbers, and underscores" then
    "Username can only contain letters, numbers, and underscores."
  else if JS.includes m "User with this email or username already exists" then
    "An account with this email or username already exists."
  else if JS.includes m "Password must be at least" then
    "Password must be at least 6 characters long."
  else if JS.includes m "Invalid email" then
    "Please enter a valid email address."
  else if JS.includes m "Full name is required" then
    "Please enter your full name."
  else m.

Definition failure : Result := mkResult false None None None.

(** A computation keeps the loading flag. *)
Definition keeps_loading {A} (c : M A) : Prop :=
  forall w, isLoading (session (fst (c w))) = isLoading (session w).

Section Operations.

(** The environment: the reply to a call, given the calls made before it. *)
Variable backend : list ApiMethod -> ApiMethod -> ApiReply.

(** [await apiService.<method>(...)] *)
Definition api (m : ApiMethod) : M Value :=
  fun w =>
    let r := backend (calls w) m in
    (mkWorld (session w) (storage r (authToken w)) (calls w ++ [m]) (console w),
     settled r).

(** Lines 9-52. *)
Definition login (credentials : string) : M Result :=
  set (mkPatch None None (Some true)) ;;
  try_catch
    (response <- api (ApiLogin credentials) ;;
     response <- read "data" response ;;
     match user_of response with
     | Some u =>
         let user := project u in
         JS.if_truthy (accessToken_of response) setItem (ret tt) ;;
         set (mkPatch (Some (Some user)) (Some true) (Some false)) ;;
         ret (mkResult true (Some user) None None)
     | None => throw (mkError "Login failed")
     end)
    (fun error =>
       set (mkPatch None None (Some false)) ;;
       ret (mkResult false None (Some (login_error_message (message error))) None)).

(** Lines 54-91. *)
Definition signup (userData : string) : M Result :=
  set (mkPatch None None (Some true)) ;;
  try_catch
    (response <- api (ApiRegister userData) ;;
     set (mkPatch None None (Some false)) ;;
     response <- read "message" response ;;
     ret (mkResult true None None
            (Some (JS.or_else (json_message response) "Account created successfully!"))))
    (fun error =>
       set (mkPatch None None (Some false)) ;;
       ret (mkResult false None (Some (signup_error_message (message error))) None)).

(** Lines 93-104. *)
Definition logout : M unit :=
  try_finally
    (try_catch
       (_ <- api ApiLogout ;; ret tt)
       (fun error => console_error "Logout error:" error))
    (removeItem ;;
     set (mkPatch (Some None) (Some false) None)).

(** Lines 106-123. *)
Definition refreshAuth : M Result :=
  try_catch
    (response <- api ApiRefreshToken ;;
     response <- read "data" response ;;
     JS.if_truthy (accessToken_of response)
       (fun tok => setItem tok ;; ret (mkResult true None None None))
       (ret failure))
    (fun error =>
       console_error "Token refresh failed:" error ;;
       removeItem ;;
       set (mkPatch (Some None) (Some false) None) ;;
       ret failure).

(** Lines 125-148. *)
Definition getCurrentUser : M Result :=
  try_catch
    (response <- api ApiGetCurrentUser ;;
     response <- read "data" response ;;
     match user_of response with
     | Some u =>
         let user := project u in
         set (mkPatch (Some (Some user)) (Some true) None) ;;
         ret (mkResult true (Some user) None None)
     | None => ret failure
     end)
    (fun error =>
       console_error "Get current user failed:" error ;;
       ret failure).

(** Lines 150-177; the result is the [isAuthenticated] property of the
    returned object. *)
Definition checkAuth : M bool :=
  token <- getItem ;;
  if negb (JS.truthy token) then ret false
  else
    try_catch
      (result <- getCurrentUser ;;
       if success result then ret true
       else
         refreshResult <- refreshAuth ;;
         if success refreshResult then
           userResult <- getCurrentUser ;;
           ret (success userResult)
         else ret false)
      (fun error =>
         console_error "Auth check failed:" error ;;
         removeItem ;;
         ret false).

(** Lines 179-192. *)
Definition initializeAuth : M unit :=
  set (mkPatch None None (Some true)) ;;
  try_finally
    (try_catch
       (isAuth <- checkAuth ;;
        if isAuth then (_ <- getCurrentUser ;; ret tt) else ret tt)
       (fun error => console_error "Auth initialization failed:" error))
    (set (mkPatch None None (Some false))).

(** Lines 194-196; [!!user] holds when a profile is given. *)
Definition setUser (u : option UserProfile) : M unit :=
  set (mkPatch (Some u) (Some (bool_decide (is_Some u))) None).

End Operations.

End AuthStore.

(** ** Concrete inputs used by the examples below *)

Module Samples.

Import AuthStore.

(** The backend record of the specification's login scenario. *)
Definition admin_record : BackendUser :=
  mkBackendUser (Some "u1") (Some "A") (Some "a@x.com") (Some "a") None (Some "admin").

Definition login_body : Json :=
  mkJson None (Some (mkData (Some admin_record) (Some "tok1"))).

Definition token_body (tok : string) : Json :=
  mkJson None (Some (mkData None (Some tok))).

(** A backend that resolves every call with [j] and leaves the token alone. *)
Definition always (v : Value) : list ApiMethod -> ApiMethod -> ApiReply :=
  fun _ _ => mkReply (inl v) (fun t => t).

(** A backend that rejects every call with [e] and leaves the token alone. *)
Definition never (e : Error) : list ApiMethod -> ApiMethod -> ApiReply :=
  fun _ _ => mkReply (inr e) (fun t => t).

Definition signed_in : World :=
  mkWorld (mkSession (Some (project admin_record)) true false) (Some "old") [] [].

Definition signed_out : World := mkWorld initial None [] [].

(** The body of a 401 for an expired access token. *)
Definition expired : Api.Body := Api.Parsed (mkJson (Some "jwt expired") None).

(** Three calls under way with the stored token ["old"]: calls 0, 1, 2. *)
Definition three_calls : Api.State :=
  Api.run [Api.Call "/products/1"; Api.Call "/plants/2"; Api.Call "/blogs/3"]
          (Api.init (Some "old")).

(** All three have come back 401; call 0 owns the refresh (call 3). *)
Definition burst : Api.State :=
  Api.run (Api.unauthorized (fun _ => expired) [0; 1; 2]) three_calls.

(** Answers of the refresh endpoint: a new token, a 2xx body with no
    token, a refusal. *)
Definition refreshed (tok : string) : Api.FetchResult :=
  Api.Resp 200 (Api.Parsed (token_body tok)).

Definition tokenless : Api.FetchResult := Api.Resp 200 (Api.Parsed empty_json).

Definition refused : Api.FetchResult :=
  Api.Resp 401 (Api.Parsed (mkJson (Some "Invalid refresh token") None)).

(** A failure status with a message in its body. *)
Definition unavailable : Api.FetchResult :=
  Api.Resp 500 (Api.Parsed (mkJson (Some "Database unavailable") None)).

(** A successful response with an empty object. *)
Definition fine : Api.FetchResult := Api.Resp 200 (Api.Parsed empty_json).

(** A successful response whose body is the JSON text [null]. *)
Definition nothing : Api.FetchResult := Api.Resp 200 (Api.Parsed Null).

End Samples.

(** ** Vocabulary for further properties of the client *)

Module Flight.
Import Api.

(** Call [o] owns the refresh: it awaits [refreshToken()] or its own retry
    inside the block guarded by [isRefreshing] (lines 53-89). *)
Definition owns (st : State) (o : ReqId) : bool :=
  match pc_of st o with
  | Some (AwaitRefresh _ _) | Some AwaitRetry => true
  | _ => false
  end.

(** Call [c] is a refresh call made by the protocol (line 57) whose fetch
    has not come back. *)
Definition refreshing (st : State) (c : ReqId) : bool :=
  match tasks st !! c with
  | Some t =>
      match awaiter t, pc t with
      | Some _, AwaitFetch => true
      | _, _ => false
      end
  | None => false
  end.

(** Mutual exclusion of the refresh. *)
Definition single_flight (st : State) : Prop :=
  (forall o, owns st o = true -> isRefreshing st = true) /\
  (forall o1 o2, owns st o1 = true -> owns st o2 = true -> o1 = o2) /\
  (forall c t o, tasks st !! c = Some t -> awaiter t = Some o -> pc t = AwaitFetch ->
     exists status errorData, pc_of st o = Some (AwaitRefresh status errorData)) /\
  (forall c1 c2, refreshing st c1 = true -> refreshing st c2 = true -> c1 = c2).

(** The task of a call that neither owns the refresh nor is a refresh call
    in flight. *)
Definition bystander (t : Task) : bool :=
  match pc t with
  | AwaitRefresh _ _ | AwaitRetry => false
  | AwaitFetch => match awaiter t with Some _ => false | None => true end
  | _ => true
  end.

End Flight.

Module Budget.
Import Api.

(** How many times [fetch] was called for call [r]. *)
Definition fetch_count (st : State) (r : ReqId) : nat :=
  length (filter (fun f => fetch_by f = r) (fetches st)).

(** The number of fetches a call can have made, given where it stands: one
    before any retry, two once retried. *)
Definition within (p : option Pc) (n : nat) : bool :=
  match p with
  | None => n =? 0
  | Some AwaitFetch | Some (AwaitRefresh _ _) | Some Queued => n =? 1
  | Some AwaitRetry | Some AwaitQueuedRetry => n =? 2
  | Some (Resolved _) | Some (Rejected _) => (n =? 1) || (n =? 2)
  end.

Definition budgeted (st : State) : Prop :=
  forall r, within (pc_of st r) (fetch_count st r) = true.

End Budget.

Module Steps.
Import Api.

(** What one event can do to the stored token and to the location: leave
    both, store a token a refresh returned, or remove the token and go to
    the login page with the client idle and the queue empty. *)
Definition token_moves (st st' : State) : Prop :=
  (authToken st' = authToken st /\ hrefs st' = hrefs st) \/
  (exists tok, tok <> "" /\ authToken st' = Some tok /\ hrefs st' = hrefs st) \/
  (authToken st' = None /\ hrefs st' = hrefs st ++ ["/login"] /\
   isRefreshing st' = false /\ failedQueue st' = []).

(** What the owner's retry throws (lines 67-77), if it throws. *)
Definition retry_error (fr : FetchResult) : option Error :=
  match fr with
  | NetFail e => Some e
  | Resp status body =>
      if ok status then
        match body with
        | Parsed _ => None
        | Unparsable e => Some e
        end
      else Some (http_failure (error_body body) status)
  end.

End Steps.

(** ** Vocabulary for further properties of the store *)

Module StoreLogic.
Import AuthStore.

(** [c], run in [w], returns normally, in a world and with a value that
    satisfy [Q]. *)
Definition returns {A} (c : M A) (w : World) (Q : World -> A -> Prop) : Prop :=
  exists w' a, c w = (w', inl a) /\ Q w' a.

(** Every entry the console gained between [w] and [w'] carries one of
    [labels]. *)
Definition logged_only (labels : list string) (w w' : World) : Prop :=
  forall l e, (l, e) ∈ console w' -> (l, e) ∈ console w \/ l ∈ labels.

(** The sequences of API calls [initializeAuth] can make (lines 179-192). *)
Definition initialize_patterns : list (list ApiMethod) :=
  [ [];
    [ApiGetCurrentUser; ApiGetCurrentUser];
    [ApiGetCurrentUser; ApiRefreshToken];
    [ApiGetCurrentUser; ApiRefreshToken; ApiGetCurrentUser];
    [ApiGetCurrentUser; ApiRefreshToken; ApiGetCurrentUser; ApiGetCurrentUser] ].

(** The API calls [checkAuth] makes, with the answer it then gives. *)
Definition check_trace (l : list ApiMethod) (b : bool) : Prop :=
  (l = [] /\ b = false) \/
  (l = [ApiGetCurrentUser] /\ b = true) \/
  (l = [ApiGetCurrentUser; ApiRefreshToken] /\ b = false) \/
  l = [ApiGetCurrentUser; ApiRefreshToken; ApiGetCurrentUser].

(** The labels under which [getCurrentUser] and [refreshAuth] log. *)
Definition check_labels : list string :=
  ["Get current user failed:"; "Token refresh failed:"].

End StoreLogic.

(** ** The resource wrappers of [ApiService] (api.js, lines 159-428)

    Each wrapper calls [request] on an endpoint built from its argument: an
    id spliced into a template literal, or the query string that
    [new URLSearchParams(params).toString()] yields.  Bodies and methods go
    to [fetch] unchanged and are not modelled. *)

Module Wrappers.

Inductive Wrapper :=
| getProducts (queryString : string)
| getProduct (id : string)
| createProduct
| updateProduct (id : string)
| deleteProduct (id : string)
| permanentDeleteProduct (id : string)
| toggleProductStatus (id : string)
| getPlants (queryString : string)
| getPlant (id : string)
| createPlant
| updatePlant (id : string)
| deletePlant (id : string)
| permanentDeletePlant (id : string)
| togglePlantStatus (id : string)
| getNatures (queryString : string)
| getNature (id : string)
| createNature
| updateNature (id : string)
| deleteNature (id : string)
| permanentDeleteNature (id : string)
| toggleNatureStatus (id : string)
| getBlogs (queryString : string)
| getBlog (id : string)
| createBlog
| updateBlog (id : string)
| deleteBlog (id : string)
| getInquiries (queryString : string)
| getInquiry (id : string)
| createInquiry
| updateInquiry (id : string)
| deleteInquiry (id : string)
| getQuotes (queryString : string)
| getQuote (id : string)
| createQuote
| updateQuote (id : string)
| deleteQuote (id : string)
| getSubscribers (queryString : string)
| deleteSubscriber (id : string)
| getUsers (queryString : string)
| getUser (id : string)
| createUser
| updateUser (id : string)
| deleteUser (id : string)
| searchProducts (queryString : string).

(** The endpoint handed to [request]. *)
Definition path (w : Wrapper) : string :=
  match w with
  | getProducts q => "/products/allProducts?" ++ q
  | getProduct id => "/products/" ++ id
  | createProduct => "/products/create"
  | updateProduct id => "/products/" ++ id
  | deleteProduct id => "/products/" ++ id
  | permanentDeleteProduct id => "/products/permanent/" ++ id
  | toggleProductStatus id => "/products/" ++ id ++ "/toggle-status"
  | getPlants q => "/plants/allPlants?" ++ q
  | getPlant id => "/plants/" ++ id
  | createPlant => "/plants/create"
  | updatePlant id => "/plants/" ++ id
  | deletePlant id => "/plants/" ++ id
  | permanentDeletePlant id => "/plants/permanent/" ++ id
  | togglePlantStatus id => "/plants/" ++ id ++ "/toggle-status"
  | getNatures q => "/natures/allNatures?" ++ q
  | getNature id => "/natures/" ++ id
  | createNature => "/natures/create"
  | updateNature id => "/natures/" ++ id
  | deleteNature id => "/natures/" ++ id
  | permanentDeleteNature id => "/natures/permanent/" ++ id
  | toggleNatureStatus id => "/natures/" ++ id ++ "/toggle-status"
  | getBlogs q => "/blogs?" ++ q
  | getBlog id => "/blogs/" ++ id
  | createBlog => "/blogs/create"
  | updateBlog id => "/blogs/" ++ id
  | deleteBlog id => "/blogs/" ++ id
  | getInquiries q => "/inquires?" ++ q
  | getInquiry id => "/inquires/" ++ id
  | createInquiry => "/inquires"
  | updateInquiry id => "/inquires/" ++ id
  | deleteInquiry id => "/inquires/" ++ id
  | getQuotes q => "/quotes?" ++ q
  | getQuote id => "/quotes/" ++ id
  | createQuote => "/quotes/create"
  | updateQuote id => "/quotes/" ++ id
  | deleteQuote id => "/quotes/" ++ id
  | getSubscribers q => "/subscribers?" ++ q
  | deleteSubscriber id => "/subscribers/" ++ id
  | getUsers q => "/users?" ++ q
  | getUser id => "/users/" ++ id
  | createUser => "/users"
  | updateUser id => "/users/" ++ id
  | deleteUser id => "/users/" ++ id
  | searchProducts q => "/products/search?" ++ q
  end%string.

(** The id a wrapper splices into its endpoint, if it takes one. *)
Definition id_of (w : Wrapper) : option string :=
  match w with
  | getProduct id | updateProduct id | deleteProduct id | permanentDeleteProduct id
  | toggleProductStatus id
  | getPlant id | updatePlant id | deletePlant id | permanentDeletePlant id
  | togglePlantStatus id
  | getNature id | updateNature id | deleteNature id | permanentDeleteNature id
  | toggleNatureStatus id
  | getBlog id | updateBlog id | deleteBlog id
  | getInquiry id | updateInquiry id | deleteInquiry id
  | getQuote id | updateQuote id | deleteQuote id
  | deleteSubscriber id
  | getUser id | updateUser id | deleteUser id => Some id
  | _ => None
  end.

(** The query string a listing wrapper appends, if it takes one. *)
Definition query_of (w : Wrapper) : option string :=
  match w with
  | getProducts q | getPlants q | getNatures q | getBlogs q | getInquiries q
  | getQuotes q | getSubscribers q | getUsers q | searchProducts q => Some q
  | _ => None
  end.

(** [s] contains no ["/"]. *)
Fixpoint slashless (s : string) : bool :=
  match s with
  | EmptyString => true
  | String c s' => negb (Ascii.eqb c "/") && slashless s'
  end.

(** The argument of a wrapper, id or query string, contains no ["/"]. *)
Definition plain_argument (w : Wrapper) : bool :=
  match id_of w, query_of w with
  | Some id, _ => slashless id
  | None, Some q => slashless q
  | None, None => true
  end.

(** [sub] is a prefix of [p ++ r], computed along the literal [p]. *)
Fixpoint prefix_along (sub p r : string) : bool :=
  match sub, p with
  | EmptyString, _ => true
  | _, EmptyString => String.prefix sub r
  | String a sub', String b p' => Ascii.eqb a b && prefix_along sub' p' r
  end.

(** [sub] occurs in [p ++ r], computed along the literal [p]. *)
Fixpoint scan (p r sub : string) : bool :=
  match p with
  | EmptyString => JS.includes r sub
  | String c p' => prefix_along sub p r || scan p' r sub
  end.

End Wrappers.

(** ** The route guards: [ProtectedRoute] and [AuthRedirect]

    Both components read [isAuthenticated], [isLoading] and [checkAuth]
    from the store, keep a local flag [isChecking] (initially [true]), run
    the effect [verifyAuth] and render one of three things.  What is
    rendered is a function of the three flags; the effect is a computation
    of the store that ends by clearing [isChecking]. *)

Module Guards.
Import AuthStore.

Inductive View :=
| Spinner                                        (* the loading placeholder *)
| Navigate (to : string) (from : option string)  (* <Navigate to=... state={{from}} replace /> *)
| Children.

(** [ProtectedRoute], lines 21-36. *)
Definition protected_view (isAuthenticated isLoading isChecking : bool)
    (location : string) : View :=
  if isLoading || isChecking then Spinner
  else if negb isAuthenticated then Navigate "/login" (Some location)
  else Children.

(** [AuthRedirect], lines 20-35. *)
Definition guest_view (isAuthenticated isLoading isChecking : bool) : View :=
  if isLoading || isChecking then Spinner
  else if isAuthenticated then Navigate "/" None
  else Children.

Section Effect.

Variable backend : list ApiMethod -> ApiMethod -> ApiReply.

(** [verifyAuth] (lines 11-16 of [ProtectedRoute], 10-15 of
    [AuthRedirect]), closed over the flags of the render that scheduled it;
    the value is what [setIsChecking] receives. *)
Definition verifyAuth (isAuthenticated isLoading : bool) : M bool :=
  bind (if negb isAuthenticated && negb isLoading
        then bind (checkAuth backend) (fun _ => ret tt)
        else ret tt)
       (fun _ => ret false).

(** The flag [isChecking] once the effect scheduled by the first render has
    run: cleared if the effect completed, still set otherwise. *)
Definition checking_after (w : World) : bool :=
  match snd (verifyAuth (isAuthenticated (session w)) (isLoading (session w)) w) with
  | inl b => b
  | inr _ => true
  end.

(** The store once that effect has run. *)
Definition world_after (w : World) : World :=
  fst (verifyAuth (isAuthenticated (session w)) (isLoading (session w)) w).

(** What each guard renders then. *)
Definition protected_after (location : string) (w : World) : View :=
  protected_view (isAuthenticated (session (world_after w)))
                 (isLoading (session (world_after w)))
                 (checking_after w) location.

Definition guest_after (w : World) : View :=
  guest_view (isAuthenticated (session (world_after w)))
             (isLoading (session (world_after w)))
             (checking_after w).

End Effect.

End Guards.

(** ** More concrete inputs *)

Module MoreSamples.

(** A login attempt under way, nothing stored. *)
Definition login_pending : Api.State :=
  Api.run [Api.Call "/users/login"] (Api.init None).

(** The 401 the backend answers a wrong password with. *)
Definition wrong_password : Api.FetchResult :=
  Api.Resp 401 (Api.Parsed (mkJson (Some "Invalid user credentials") None)).

(** Call 0 has refreshed and awaits its retry; call 1 came back 401
    meanwhile and is parked; call 2 still awaits its first response. *)
Definition retrying_events : list Api.Event :=
  [Api.Call "/products/1"; Api.Call "/plants/2"; Api.Call "/blogs/3";
   Api.Deliver 0 (Api.Resp 401 Samples.expired);
   Api.Deliver 3 (Samples.refreshed "new");
   Api.Deliver 1 (Api.Resp 401 Samples.expired)].

Definition retrying : Api.State := Api.run retrying_events (Api.init (Some "old")).

(** A login response with a user record and no access token. *)
Definition user_only_body : Json :=
  mkJson None (Some (mkData (Some Samples.admin_record) None)).

(** A visitor with a stored token whose session has not been restored. *)
Definition returning : AuthStore.World :=
  AuthStore.mkWorld AuthStore.initial (Some "old") [] [].

End MoreSamples.

(** ** Properties of the session store *)

Section StoreProperties.

Import AuthStore.

Variable backend : list ApiMethod -> ApiMethod -> ApiReply.

Lemma project_role_default (u : BackendUser) :
  bu_role u = None -> role (project u) = "user".
Proof. intros H. unfold project; simpl. now rewrite H. Qed.

Lemma project_role_given (u : BackendUser) (r : string) :
  bu_role u = Some r -> r <> "" -> role (project u) = r.
Proof.
  intros H Hr. unfold project; simpl. rewrite H.
  unfold JS.or_else, JS.if_truthy.
  destruct (String.eqb_spec r ""); congruence.
Qed.

(** *** Frame: operations that leave [isLoading] alone *)

Lemma keeps_ret {A} (a : A) : keeps_loading (ret a).
Proof. intros w; reflexivity. Qed.

Lemma keeps_throw {A} (e : Error) : keeps_loading (@throw A e).
Proof. intros w; reflexivity. Qed.

Lemma keeps_bind {A B} (c : M A) (k : A -> M B) :
  keeps_loading c -> (forall a, keeps_loading (k a)) -> keeps_loading (bind c k).
Proof.
  intros Hc Hk w. unfold bind. specialize (Hc w).
  destruct (c w) as [w1 [a | e]]; simpl in *; [rewrite Hk|]; exact Hc.
Qed.

Lemma keeps_try_catch {A} (c : M A) (h : Error -> M A) :
  keeps_loading c -> (forall e, keeps_loading (h e)) -> keeps_loading (try_catch c h).
Proof.
  intros Hc Hh w. unfold try_catch. specialize (Hc w).
  destruct (c w) as [w1 [a | e]]; simpl in *; [|rewrite Hh]; exact Hc.
Qed.

Lemma keeps_try_finally {A} (c : M A) (f : M unit) :
  keeps_loading c -> keeps_loading f -> keeps_loading (try_finally c f).
Proof.
  intros Hc Hf w. unfold try_finally. specialize (Hc w).
  destruct (c w) as [w1 r]. specialize (Hf w1).
  destruct (f w1) as [w2 [u | e]]; simpl in *; congruence.
Qed.

Lemma keeps_set (u : option (option UserProfile)) (a : option bool) :
  keeps_loading (set (mkPatch u a None)).
Proof. intros w; reflexivity. Qed.

Lemma keeps_put_token (t : option string) : keeps_loading (put_token t).
Proof. intros w; reflexivity. Qed.

Lemma keeps_getItem : keeps_loading getItem.
Proof. intros w; reflexivity. Qed.

Lemma keeps_console_error (l : string) (e : Error) : keeps_loading (console_error l e).
Proof. intros w; reflexivity. Qed.

Lemma keeps_api (m : ApiMethod) : keeps_loading (api backend m).
Proof. intros w; reflexivity. Qed.

Lemma keeps_if_truthy {A} (v : option string) (yes : string -> M A) (no : M A) :
  (forall s, keeps_loading (yes s)) -> keeps_loading no ->
  keeps_loading (JS.if_truthy v yes no).
Proof.
  intros Hy Hn. unfold JS.if_truthy.
  destruct v as [s|]; [destruct (String.eqb s "")|]; auto.
Qed.

Create HintDb loading.
#[local] Hint Resolve keeps_ret keeps_throw keeps_set keeps_put_token keeps_getItem
  keeps_console_error keeps_api : loading.

Ltac loading_frame :=
  repeat first
    [ progress intros
    | apply keeps_bind | apply keeps_try_catch | apply keeps_try_finally
    | apply keeps_if_truthy
    | solve [ auto with loading ]
    | match goal with
      | |- keeps_loading (match ?x with _ => _ end) => destruct x
      | |- keeps_loading (if ?x then _ else _) => destruct x
      end ].

Lemma keeps_logout : keeps_loading (logout backend).
Proof. unfold logout, removeItem. loading_frame. Qed.

Lemma keeps_refreshAuth : keeps_loading (refreshAuth backend).
Proof. unfold refreshAuth, setItem, removeItem. loading_frame. Qed.

Lemma keeps_getCurrentUser : keeps_loading (getCurrentUser backend).
Proof. unfold getCurrentUser. loading_frame. Qed.

Lemma keeps_checkAuth : keeps_loading (checkAuth backend).
Proof.
  pose proof keeps_getCurrentUser. pose proof keeps_refreshAuth.
  unfold checkAuth, removeItem. loading_frame.
Qed.

Lemma keeps_setUser (u : option UserProfile) : keeps_loading (setUser u).
Proof. unfold setUser. loading_frame. Qed.

(** *** What a computation that ends by clearing the flag leaves behind *)

Lemma try_finally_loading {A} (c : M A) (b : bool) (w : World) :
  isLoading (session (fst (try_finally c (set (mkPatch None None (Some b))) w))) = b.
Proof. unfold try_finally. destruct (c w) as [w1 r]. reflexivity. Qed.

(** *** The operations, one by one *)

Ltac run_store :=
  unfold login, signup, logout, refreshAuth, getCurrentUser, checkAuth,
    try_catch, try_finally, bind, ret, throw, api, read, set, setItem, removeItem,
    put_token, getItem, console_error, merge; simpl.

(** C4. A login response carrying a user record and an access token makes
    the session authenticated, stores the token and returns
    [{success: true, user}] with the projected profile (role ["user"] when
    the record has none); a response without a user record returns
    [{success: false}]. *)
Theorem login_response_decides (credentials : string) (w : World) (response : Json) :
  settled (backend (calls w) (ApiLogin credentials)) = inl (Obj response) ->
  (forall u tok,
      user_of response = Some u ->
      accessToken_of response = Some tok -> tok <> "" ->
      snd (login backend credentials w) = inl (mkResult true (Some (project u)) None None) /\
      isAuthenticated (session (fst (login backend credentials w))) = true /\
      user (session (fst (login backend credentials w))) = Some (project u) /\
      authToken (fst (login backend credentials w)) = Some tok /\
      project u = mkUser (_id u) (fullname u) (bu_email u) (bu_username u)
                         (bu_avatar u) (role (project u)) /\
      (bu_role u = None -> role (project u) = "user") /\
      (forall r, bu_role u = Some r -> r <> "" -> role (project u) = r)) /\
  (user_of response = None ->
      exists err, snd (login backend credentials w) = inl (mkResult false None (Some err) None)).
Proof.
  intros Hreply. split.
  - intros u tok Hu Htok Hne.
    assert (Hrun : login backend credentials w =
                   (mkWorld (mkSession (Some (project u)) true false) (Some tok)
                            (calls w ++ [ApiLogin credentials]) (console w),
                    inl (mkResult true (Some (project u)) None None))).
    { run_store. rewrite Hreply; simpl. rewrite Hu, Htok. unfold JS.if_truthy.
      destruct (String.eqb_spec tok ""); [congruence | reflexivity]. }
    rewrite Hrun; simpl.
    split; [reflexivity|]. split; [reflexivity|]. split; [reflexivity|].
    split; [reflexivity|]. split; [reflexivity|].
    split; [apply project_role_default|].
    intros r Hr Hr'. now apply project_role_given.
  - intros Hu. eexists. run_store. rewrite Hreply; simpl. rewrite Hu. reflexivity.
Qed.

(** C5, as the code has it. When the refresh call resolves with a body
    that carries an access token, [refreshAuth] stores it and returns
    [{success: true}]. When the call throws, and when it resolves with
    [null] (reading [response.data] then throws inside the [try]), the
    stored token is removed, the session is reset to unauthenticated and
    [{success: false}] is returned. When the call resolves with a body that
    carries no access token, [{success: false}] is returned, the session is
    left as it was and [refreshAuth] does not write the stored token: it is
    as the call left it, so unchanged whenever the call did not touch it. *)
Theorem refreshAuth_outcomes (w : World) :
  (forall response tok,
      settled (backend (calls w) ApiRefreshToken) = inl (Obj response) ->
      accessToken_of response = Some tok -> tok <> "" ->
      snd (refreshAuth backend w) = inl (mkResult true None None None) /\
      authToken (fst (refreshAuth backend w)) = Some tok /\
      session (fst (refreshAuth backend w)) = session w) /\
  (forall e,
      settled (backend (calls w) ApiRefreshToken) = inr e ->
      snd (refreshAuth backend w) = inl failure /\
      authToken (fst (refreshAuth backend w)) = None /\
      user (session (fst (refreshAuth backend w))) = None /\
      isAuthenticated (session (fst (refreshAuth backend w))) = false) /\
  (settled (backend (calls w) ApiRefreshToken) = inl Null ->
      snd (refreshAuth backend w) = inl failure /\
      authToken (fst (refreshAuth backend w)) = None /\
      user (session (fst (refreshAuth backend w))) = None /\
      isAuthenticated (session (fst (refreshAuth backend w))) = false) /\
  (forall response,
      settled (backend (calls w) ApiRefreshToken) = inl (Obj response) ->
      JS.truthy (accessToken_of response) = false ->
      snd (refreshAuth backend w) = inl failure /\
      session (fst (refreshAuth backend w)) = session w /\
      authToken (fst (refreshAuth backend w)) =
        storage (backend (calls w) ApiRefreshToken) (authToken w) /\
      (storage (backend (calls w) ApiRefreshToken) (authToken w) = authToken w ->
       authToken (fst (refreshAuth backend w)) = authToken w)).
Proof.
  split; [|split; [|split]].
  - intros response tok Hreply Htok Hne.
    assert (Hrun : refreshAuth backend w =
                   (mkWorld (session w) (Some tok) (calls w ++ [ApiRefreshToken]) (console w),
                    inl (mkResult true None None None))).
    { run_store. rewrite Hreply; simpl. rewrite Htok. unfold JS.if_truthy.
      destruct (String.eqb_spec tok ""); [congruence | reflexivity]. }
    now rewrite Hrun.
  - intros e Hreply. run_store. now rewrite Hreply.
  - intros Hreply. run_store. now rewrite Hreply.
  - intros response Hreply Hfalsy.
    assert (Hrun : refreshAuth backend w =
                   (mkWorld (session w)
                            (storage (backend (calls w) ApiRefreshToken) (authToken w))
                            (calls w ++ [ApiRefreshToken]) (console w),
                    inl failure)).
    { revert Hfalsy. run_store. rewrite Hreply; simpl. unfold JS.truthy, JS.if_truthy.
      destruct (accessToken_of response) as [t|]; [destruct (String.eqb t "")|];
        simpl; congruence. }
    rewrite Hrun; simpl. auto.
Qed.

(** C6. [logout] returns normally whatever the backend call does, and
    afterwards no token is stored and the session is unauthenticated. *)
Theorem logout_always_clears (w : World) :
  snd (logout backend w) = inl tt /\
  authToken (fst (logout backend w)) = None /\
  user (session (fst (logout backend w))) = None /\
  isAuthenticated (session (fst (logout backend w))) = false.
Proof.
  run_store. destruct (settled (backend (calls w) ApiLogout)); simpl; auto.
Qed.

(** C7. With no stored token [checkAuth] answers unauthenticated and calls
    nothing: the world, and with it the log of API calls, is unchanged. *)
Theorem checkAuth_without_token (w : World) :
  authToken w = None ->
  checkAuth backend w = (w, inl false) /\
  calls (fst (checkAuth backend w)) = calls w.
Proof.
  intros H. unfold checkAuth, bind, getItem. rewrite H. simpl. auto.
Qed.

(** C8, as the code has it. When the login call fails with a message that
    contains "Invalid user credentials" and does not contain "User does not
    exist", the returned error is "Invalid username or password."; a
    message containing none of the four known phrases is returned as is. *)
Theorem login_error_translation (credentials : string) (w : World) (e : Error) :
  settled (backend (calls w) (ApiLogin credentials)) = inr e ->
  (JS.includes (message e) "User does not exist" = false ->
   JS.includes (message e) "Invalid user credentials" = true ->
   snd (login backend credentials w) =
     inl (mkResult false None (Some "Invalid username or password.") None)) /\
  (JS.includes (message e) "User does not exist" = false ->
   JS.includes (message e) "Invalid user credentials" = false ->
   JS.includes (message e) "Account is deactivated" = false ->
   JS.includes (message e) "Too many requests" = false ->
   snd (login backend credentials w) =
     inl (mkResult false None (Some (message e)) None)).
Proof.
  intros Hreply. split; intros; run_store; rewrite Hreply; simpl;
    unfold login_error_message;
    repeat match goal with H : JS.includes _ _ = _ |- _ => rewrite H; clear H end;
    reflexivity.
Qed.

(** C10. [logout], [refreshAuth], [getCurrentUser], [checkAuth] and
    [setUser] leave [isLoading] as it was, whatever the state and the
    backend; a [refreshAuth] whose call throws resets [user] and
    [isAuthenticated] and still keeps [isLoading]. [login], [signup] and
    [initializeAuth] are the operations that write the flag: each leaves it
    [false]. *)
Theorem isLoading_frame (w : World) (u : option UserProfile) (arg : string) :
  isLoading (session (fst (logout backend w))) = isLoading (session w) /\
  isLoading (session (fst (refreshAuth backend w))) = isLoading (session w) /\
  isLoading (session (fst (getCurrentUser backend w))) = isLoading (session w) /\
  isLoading (session (fst (checkAuth backend w))) = isLoading (session w) /\
  isLoading (session (fst (setUser u w))) = isLoading (session w) /\
  (forall e,
      settled (backend (calls w) ApiRefreshToken) = inr e ->
      user (session (fst (refreshAuth backend w))) = None /\
      isAuthenticated (session (fst (refreshAuth backend w))) = false /\
      isLoading (session (fst (refreshAuth backend w))) = isLoading (session w)) /\
  isLoading (session (fst (login backend arg w))) = false /\
  isLoading (session (fst (signup backend arg w))) = false /\
  isLoading (session (fst (initializeAuth backend w))) = false.
Proof.
  split; [apply keeps_logout|].
  split; [apply keeps_refreshAuth|].
  split; [apply keeps_getCurrentUser|].
  split; [apply keeps_checkAuth|].
  split; [apply keeps_setUser|].
  split.
  { intros e He. split; [|split; [|apply keeps_refreshAuth]];
      run_store; now rewrite He. }
  split.
  { run_store. destruct (settled (backend (calls w) (ApiLogin arg))) as [[|j]|e]; simpl;
      [|destruct (user_of j); simpl|]; try reflexivity.
    unfold JS.if_truthy.
    destruct (accessToken_of j) as [t|]; [destruct (String.eqb t "")|]; reflexivity. }
  split.
  { run_store. destruct (settled (backend (calls w) (ApiRegister arg))) as [[|j]|e];
      reflexivity. }
  unfold initializeAuth, bind at 1. simpl. apply try_finally_loading.
Qed.

End StoreProperties.

(** *** The store on concrete inputs *)

Section StoreExamples.

Import AuthStore Samples.

(** The login scenario of the specification, and a response with no user. *)
Lemma login_response_decides_witness :
  (snd (login (always login_body) "c" signed_out) =
     inl (mkResult true (Some (project admin_record)) None None) /\
   isAuthenticated (session (fst (login (always login_body) "c" signed_out))) = true /\
   authToken (fst (login (always login_body) "c" signed_out)) = Some "tok1" /\
   role (project admin_record) = "admin") /\
  (exists err, snd (login (always empty_json) "c" signed_out) =
                 inl (mkResult false None (Some err) None)).
Proof.
  split.
  - destruct (login_response_decides (always login_body) "c" signed_out login_body eq_refl)
      as [Hyes _].
    destruct (Hyes admin_record "tok1" eq_refl eq_refl ltac:(discriminate))
      as (Hres & Hauth & _ & Htok & _ & _ & Hrole).
    split; [exact Hres|]. split; [exact Hauth|]. split; [exact Htok|].
    apply (Hrole "admin"); [reflexivity | discriminate].
  - destruct (login_response_decides (always empty_json) "c" signed_out empty_json eq_refl)
      as [_ Hno].
    exact (Hno eq_refl).
Defined.

(** C5 fails as stated: a refresh response without an access token yields
    a failure result, yet the stored token and the session survive. *)
Lemma refreshAuth_tokenless_response_keeps_session :
  settled (always empty_json [] ApiRefreshToken) = inl (Obj empty_json) /\
  accessToken_of empty_json = None /\
  snd (refreshAuth (always empty_json) signed_in) = inl failure /\
  authToken (fst (refreshAuth (always empty_json) signed_in)) = Some "old" /\
  isAuthenticated (session (fst (refreshAuth (always empty_json) signed_in))) = true /\
  ~ (authToken (fst (refreshAuth (always empty_json) signed_in)) = None /\
     user (session (fst (refreshAuth (always empty_json) signed_in))) = None /\
     isAuthenticated (session (fst (refreshAuth (always empty_json) signed_in))) = false).
Proof.
  repeat split; try reflexivity. intros (H & _). discriminate H.
Qed.

Lemma refreshAuth_outcomes_witness :
  (snd (refreshAuth (always (token_body "tok2")) signed_in) = inl (mkResult true None None None) /\
   authToken (fst (refreshAuth (always (token_body "tok2")) signed_in)) = Some "tok2") /\
  (snd (refreshAuth (never (mkError "Unauthorized request")) signed_in) = inl failure /\
   authToken (fst (refreshAuth (never (mkError "Unauthorized request")) signed_in)) = None /\
   isAuthenticated (session (fst (refreshAuth (never (mkError "Unauthorized request")) signed_in))) = false) /\
  (snd (refreshAuth (always Null) signed_in) = inl failure /\
   authToken (fst (refreshAuth (always Null) signed_in)) = None /\
   isAuthenticated (session (fst (refreshAuth (always Null) signed_in))) = false) /\
  (snd (refreshAuth (always empty_json) signed_in) = inl failure /\
   session (fst (refreshAuth (always empty_json) signed_in)) = session signed_in /\
   authToken (fst (refreshAuth (always empty_json) signed_in)) = authToken signed_in).
Proof.
  split; [|split; [|split]].
  - destruct (refreshAuth_outcomes (always (token_body "tok2")) signed_in) as (H & _).
    destruct (H (token_body "tok2") "tok2" eq_refl eq_refl ltac:(discriminate))
      as (Hres & Htok & _).
    split; [exact Hres | exact Htok].
  - destruct (refreshAuth_outcomes (never (mkError "Unauthorized request")) signed_in)
      as (_ & H & _).
    destruct (H (mkError "Unauthorized request") eq_refl) as (Hres & Htok & _ & Hauth).
    split; [exact Hres|]. split; [exact Htok | exact Hauth].
  - destruct (refreshAuth_outcomes (always Null) signed_in) as (_ & _ & H & _).
    destruct (H eq_refl) as (Hres & Htok & _ & Hauth).
    split; [exact Hres|]. split; [exact Htok | exact Hauth].
  - destruct (refreshAuth_outcomes (always empty_json) signed_in) as (_ & _ & _ & H).
    destruct (H empty_json eq_refl eq_refl) as (Hres & Hsess & _ & Htok).
    split; [exact Hres|]. split; [exact Hsess|]. exact (Htok eq_refl).
Defined.

Lemma checkAuth_without_token_witness :
  authToken signed_out = None /\
  checkAuth (never (mkError "offline")) signed_out = (signed_out, inl false) /\
  calls (fst (checkAuth (never (mkError "offline")) signed_out)) = [].
Proof.
  split; [reflexivity|].
  apply (checkAuth_without_token (never (mkError "offline")) signed_out). reflexivity.
Defined.

(** C8 fails as stated: a message that contains "Invalid user credentials"
    and also "User does not exist" is translated by the first test of the
    chain. *)
Lemma login_error_first_match_wins :
  JS.includes "User does not exist: Invalid user credentials" "Invalid user credentials" = true /\
  snd (login (never (mkError "User does not exist: Invalid user credentials")) "c" signed_out) =
    inl (mkResult false None (Some "User not found. Please check your credentials.") None) /\
  snd (login (never (mkError "User does not exist: Invalid user credentials")) "c" signed_out) <>
    inl (mkResult false None (Some "Invalid username or password.") None).
Proof.
  split; [reflexivity|]. split; [reflexivity|]. discriminate.
Qed.

Lemma login_error_translation_witness :
  snd (login (never (mkError "Invalid user credentials")) "c" signed_out) =
    inl (mkResult false None (Some "Invalid username or password.") None) /\
  snd (login (never (mkError "Internal server error")) "c" signed_out) =
    inl (mkResult false None (Some "Internal server error") None).
Proof.
  split.
  - apply (login_error_translation (never (mkError "Invalid user credentials")) "c"
             signed_out (mkError "Invalid user credentials") eq_refl); reflexivity.
  - apply (login_error_translation (never (mkError "Internal server error")) "c"
             signed_out (mkError "Internal server error") eq_refl); reflexivity.
Defined.

Lemma isLoading_frame_witness :
  user (session (fst (refreshAuth (never (mkError "Unauthorized request")) signed_in))) = None /\
  isAuthenticated (session (fst (refreshAuth (never (mkError "Unauthorized request")) signed_in))) = false /\
  isLoading (session (fst (refreshAuth (never (mkError "Unauthorized request")) signed_in))) =
    isLoading (session signed_in).
Proof.
  destruct (isLoading_frame (never (mkError "Unauthorized request")) signed_in None "")
    as (_ & _ & _ & _ & _ & H & _).
  exact (H (mkError "Unauthorized request") eq_refl).
Defined.

End StoreExamples.

(** ** Properties of the HTTP client *)

Section ClientProperties.

Import Api.

Implicit Types (st : State) (r o q x child : ReqId) (t : Task).

Lemma run_jobs_nil st : jobs st = [] -> run_jobs st = st.
Proof. destruct st; simpl; intros ->; reflexivity. Qed.

Lemma tasks_set_pc st x t p :
  tasks (set_pc x t p st) = <[x := mkTask (endpoint t) (awaiter t) p]> (tasks st).
Proof. reflexivity. Qed.

Lemma resume_unsettled st r c :
  tasks st !! r = Some c -> has_settled st r = false -> resume_awaiter r st = st.
Proof.
  unfold resume_awaiter, has_settled, pc_of. intros ->. simpl.
  destruct (awaiter c) as [o|]; [|reflexivity].
  destruct (tasks st !! o) as [t|]; [|reflexivity].
  destruct (pc t); try reflexivity.
  destruct (pc c); try reflexivity; discriminate.
Qed.

Lemma step_queues st x t body :
  tasks st !! x = Some t -> pc t = AwaitFetch ->
  wants_refresh 401 (endpoint t) = true ->
  isRefreshing st = true -> jobs st = [] ->
  step st (Deliver x (Resp 401 body)) =
    set_pc x t Queued (set_failedQueue (failedQueue st ++ [x]) st).
Proof.
  intros Hx Hpc Hw Hr Hj.
  unfold step, handle, deliver. rewrite Hx, Hpc.
  unfold after_fetch, verdict. change (ok 401) with false. cbv iota.
  rewrite Hw, Hr. cbn [negb].
  erewrite resume_unsettled.
  - apply run_jobs_nil. exact Hj.
  - rewrite tasks_set_pc. apply lookup_insert_eq.
  - unfold has_settled, pc_of. rewrite tasks_set_pc, lookup_insert_eq. reflexivity.
Qed.

Lemma step_owns st x t body :
  tasks st !! x = Some t -> pc t = AwaitFetch ->
  wants_refresh 401 (endpoint t) = true ->
  isRefreshing st = false -> jobs st = [] ->
  step st (Deliver x (Resp 401 body)) =
    set_pc x t (AwaitRefresh 401 (error_body body))
      (request_start "/users/refresh-token" (Some x) (set_isRefreshing true st)).
Proof.
  intros Hx Hpc Hw Hr Hj.
  unfold step, handle, deliver. rewrite Hx, Hpc.
  unfold after_fetch, verdict. change (ok 401) with false. cbv iota.
  rewrite Hw, Hr. cbn [negb].
  erewrite resume_unsettled.
  - apply run_jobs_nil. exact Hj.
  - rewrite tasks_set_pc. apply lookup_insert_eq.
  - unfold has_settled, pc_of. rewrite tasks_set_pc, lookup_insert_eq. reflexivity.
Qed.

Lemma retag_lookup_notin p rs (m : gmap ReqId Task) y :
  y ∉ rs -> retag p rs m !! y = m !! y.
Proof.
  revert m. induction rs as [|a rs IH]; intros m Hy; [reflexivity|].
  apply not_elem_of_cons in Hy as [Hya Hy]. unfold retag in *. simpl.
  rewrite IH by exact Hy.
  destruct (m !! a); [|reflexivity]. now rewrite lookup_insert_ne.
Qed.

Lemma retag_lookup_in p rs (m : gmap ReqId Task) x t :
  x ∈ rs -> m !! x = Some t ->
  retag p rs m !! x = Some (mkTask (endpoint t) (awaiter t) p).
Proof.
  revert m t. induction rs as [|a rs IH]; intros m t Hx Hm.
  - now apply elem_of_nil in Hx.
  - change (retag p (a :: rs) m)
      with (retag p rs (match m !! a with
                        | Some t => <[a := mkTask (endpoint t) (awaiter t) p]> m
                        | None => m
                        end)).
    destruct (decide (a = x)) as [->|Hne].
    + rewrite Hm. destruct (decide (x ∈ rs)) as [Hin|Hout].
      * rewrite (IH _ (mkTask (endpoint t) (awaiter t) p) Hin (lookup_insert_eq _ _ _)).
        reflexivity.
      * rewrite retag_lookup_notin by exact Hout. apply lookup_insert_eq.
    + apply elem_of_cons in Hx as [Heq|Hx]; [congruence|].
      apply IH; [exact Hx|].
      destruct (m !! a); [|exact Hm]. now rewrite lookup_insert_ne.
Qed.

Lemma forallb_elem {A} (f : A -> bool) (l : list A) :
  forallb f l = true <-> (forall a, a ∈ l -> f a = true).
Proof.
  rewrite forallb_forall. split; intros H a Ha; apply H; now apply list_elem_of_In.
Qed.

Lemma is_queued_task st q :
  is_queued st q = true -> exists t, tasks st !! q = Some t /\ pc t = Queued.
Proof.
  unfold is_queued, pc_of. destruct (tasks st !! q) as [t|]; simpl; [|discriminate].
  destruct (pc t) eqn:E; try discriminate. eauto.
Qed.

Lemma awaits_first_task st x :
  awaits_first st x = true ->
  exists t, tasks st !! x = Some t /\ pc t = AwaitFetch /\
            wants_refresh 401 (endpoint t) = true.
Proof.
  unfold awaits_first. destruct (tasks st !! x) as [t|]; [|discriminate].
  destruct (pc t) eqn:E; try discriminate. eauto.
Qed.

(** The burst: while a refresh is under way, each 401 parks its call. *)
Lemma burst_parks bodies rest : forall st,
  isRefreshing st = true -> jobs st = [] -> NoDup rest ->
  forallb (awaits_first st) rest = true ->
  run (unauthorized bodies rest) st =
    mkState true (failedQueue st ++ rest) (authToken st) (hrefs st) (fetches st)
            (console st) (retag Queued rest (tasks st)) (next_id st) [].
Proof.
  induction rest as [|x rest IH]; intros st Hr Hj Hnd Hall.
  - simpl. rewrite app_nil_r. destruct st; simpl in *; now subst.
  - apply NoDup_cons in Hnd as [Hx Hnd].
    simpl in Hall. apply andb_true_iff in Hall as [Hfirst Hall].
    destruct (awaits_first_task _ _ Hfirst) as (t & Ht & Hpc & Hw).
    unfold run, unauthorized in *. simpl.
    rewrite (step_queues st x t (bodies x) Ht Hpc Hw Hr Hj).
    rewrite IH; try assumption; try reflexivity.
    + simpl. rewrite <- app_assoc. unfold retag. simpl. now rewrite Ht.
    + apply forallb_elem. intros y Hy. rewrite forallb_elem in Hall.
      specialize (Hall y Hy). unfold awaits_first in *.
      rewrite tasks_set_pc, lookup_insert_ne; [exact Hall|].
      intros ->. contradiction.
Qed.

Lemma is_queued_set_pc_ne st x t p q :
  q <> x -> is_queued (set_pc x t p st) q = is_queued st q.
Proof.
  intros Hne. unfold is_queued, pc_of. now rewrite tasks_set_pc, lookup_insert_ne.
Qed.

Lemma endpoint_at_set_pc_ne st x t p q :
  q <> x -> endpoint_at (set_pc x t p st) q = endpoint_at st q.
Proof.
  intros Hne. unfold endpoint_at. now rewrite tasks_set_pc, lookup_insert_ne.
Qed.

(** Rejecting the parked promises settles each parked call. *)
Lemma run_rejects e qs : forall st,
  NoDup qs -> forallb (is_queued st) qs = true ->
  fold_left run_job (map (fun q => Reject q e) qs) st =
    mkState (isRefreshing st) (failedQueue st) (authToken st) (hrefs st) (fetches st)
            (console st) (retag (Rejected e) qs (tasks st)) (next_id st) (jobs st).
Proof.
  induction qs as [|q qs IH]; intros st Hnd Hall.
  - destruct st; reflexivity.
  - apply NoDup_cons in Hnd as [Hq Hnd].
    simpl in Hall. apply andb_true_iff in Hall as [Hfirst Hall].
    destruct (is_queued_task _ _ Hfirst) as (t & Ht & Hpc).
    cbn [map fold_left]. unfold run_job at 2. rewrite Ht, Hpc. rewrite IH; [|exact Hnd|].
    + simpl. unfold retag. simpl. now rewrite Ht.
    + apply forallb_elem. intros y Hy. rewrite forallb_elem in Hall.
      rewrite is_queued_set_pc_ne; [now apply Hall|]. intros ->. contradiction.
Qed.

(** Resolving the parked promises retries each parked call, in order. *)
Lemma run_resolves tok qs : forall st,
  NoDup qs -> forallb (is_queued st) qs = true ->
  fold_left run_job (map (fun q => Resolve q tok) qs) st =
    mkState (isRefreshing st) (failedQueue st) (authToken st) (hrefs st)
            (fetches st ++
               map (fun q => mkFetch q (url (endpoint_at st q)) (Some (bearer tok))) qs)
            (console st) (retag AwaitQueuedRetry qs (tasks st)) (next_id st) (jobs st).
Proof.
  induction qs as [|q qs IH]; intros st Hnd Hall.
  - simpl. rewrite app_nil_r. destruct st; reflexivity.
  - apply NoDup_cons in Hnd as [Hq Hnd].
    simpl in Hall. apply andb_true_iff in Hall as [Hfirst Hall].
    destruct (is_queued_task _ _ Hfirst) as (t & Ht & Hpc).
    cbn [map fold_left]. unfold run_job at 2. rewrite Ht, Hpc. rewrite IH; [|exact Hnd|].
    + simpl. rewrite <- app_assoc. simpl. unfold retag. simpl. rewrite Ht.
      f_equal. f_equal. f_equal.
      * unfold endpoint_at. now rewrite Ht.
      * apply map_ext_in. intros y Hy. apply list_elem_of_In in Hy.
        rewrite endpoint_at_set_pc_ne; [reflexivity|]. intros ->. contradiction.
    + apply forallb_elem. intros y Hy. rewrite forallb_elem in Hall.
      rewrite is_queued_set_pc_ne; [now apply Hall|]. intros ->. contradiction.
Qed.

Lemma refresh_pending_owner st o child :
  refresh_pending st o child ->
  exists t status errorData,
    tasks st !! o = Some t /\ pc t = AwaitRefresh status errorData /\ o <> child /\
    (forall q, q ∈ failedQueue st -> q <> o /\ q <> child).
Proof.
  intros (Hc & (status & errorData & Ho) & Hq & _ & _).
  unfold pc_of in Ho. destruct (tasks st !! o) as [t|] eqn:Et; [|discriminate].
  simpl in Ho. injection Ho as Ho.
  exists t, status, errorData. split; [reflexivity|]. split; [exact Ho|].
  assert (o <> child) as Hne.
  { intros ->. rewrite Hc in Et. injection Et as <-. discriminate Ho. }
  split; [exact Hne|].
  intros q Hin. rewrite forallb_elem in Hq.
  destruct (is_queued_task _ _ (Hq q Hin)) as (tq & Htq & Hpc).
  split; intros ->.
  - rewrite Et in Htq. injection Htq as <-. congruence.
  - rewrite Hc in Htq. injection Htq as <-. discriminate Hpc.
Qed.

Lemma is_queued_insert_ne st (m : gmap ReqId Task) x t q :
  q <> x -> (pc <$> (<[x := t]> m) !! q) = (pc <$> m !! q).
Proof. intros Hne. now rewrite lookup_insert_ne. Qed.

(** The refresh call throws: lines 81-89 run, then the parked promises
    are rejected. *)
Lemma refresh_throws_step st o child t fr err :
  refresh_pending st o child -> tasks st !! o = Some t ->
  verdict "/users/refresh-token" fr = Throws err ->
  step st (Deliver child fr) =
    mkState false [] None (hrefs st ++ ["/login"]) (fetches st)
            (console st ++ [err; err])
            (retag (Rejected err) (failedQueue st)
               (<[o := mkTask (endpoint t) (awaiter t) (Rejected err)]>
                  (<[child := mkTask "/users/refresh-token" (Some o) (Rejected err)]>
                     (tasks st))))
            (next_id st) [].
Proof.
  intros Hp Ht Hv.
  destruct (refresh_pending_owner _ _ _ Hp) as (t' & status & errorData & Ht' & Hpc & Hne & Hq).
  rewrite Ht in Ht'. injection Ht' as <-.
  destruct Hp as (Hc & _ & Hall & Hnd & Hj).
  unfold step, handle, deliver. rewrite Hc. cbn [pc].
  unfold after_fetch. cbn [endpoint]. rewrite Hv.
  unfold resume_awaiter, fail.
  rewrite tasks_set_pc, lookup_insert_eq. cbn [awaiter pc endpoint].
  rewrite lookup_insert_ne by congruence.
  cbn [tasks console_error]. rewrite Ht, Hpc.
  unfold after_refresh, refresh_failed, run_jobs, fail, processQueue.
  cbn -[retag insert lookup]. rewrite Hj. cbn [app].
  rewrite run_rejects; [|exact Hnd|].
  - cbn -[retag insert lookup]. rewrite <- app_assoc. reflexivity.
  - apply forallb_elem. intros q Hin. rewrite forallb_elem in Hall.
    destruct (Hq q Hin) as [Hqo Hqc].
    unfold is_queued, pc_of. cbn -[insert lookup].
    rewrite !lookup_insert_ne by congruence. apply (Hall q Hin).
Qed.

(** The refresh call returns a token: lines 58-67 run, then the parked
    promises are resolved. *)
Lemma refresh_returns_step st o child t fr (j : Json) tok :
  refresh_pending st o child -> tasks st !! o = Some t ->
  verdict "/users/refresh-token" fr = Returns j ->
  accessToken_of j = Some tok -> tok <> "" ->
  step st (Deliver child fr) =
    mkState (isRefreshing st) [] (Some tok) (hrefs st)
            (fetches st ++
               mkFetch o (url (endpoint t)) (Some (bearer (Some tok))) ::
               map (fun q => mkFetch q (url (endpoint_at st q)) (Some (bearer (Some tok))))
                   (failedQueue st))
            (console st)
            (retag AwaitQueuedRetry (failedQueue st)
               (<[o := mkTask (endpoint t) (awaiter t) AwaitRetry]>
                  (<[child := mkTask "/users/refresh-token" (Some o) (Resolved j)]>
                     (tasks st))))
            (next_id st) [].
Proof.
  intros Hp Ht Hv Htok Hne'.
  destruct (refresh_pending_owner _ _ _ Hp) as (t' & status & errorData & Ht' & Hpc & Hne & Hq).
  rewrite Ht in Ht'. injection Ht' as <-.
  destruct Hp as (Hc & _ & Hall & Hnd & Hj).
  unfold step, handle, deliver. rewrite Hc. cbn [pc].
  unfold after_fetch. cbn [endpoint]. rewrite Hv.
  unfold resume_awaiter.
  rewrite tasks_set_pc, lookup_insert_eq. cbn [awaiter pc endpoint].
  rewrite lookup_insert_ne by congruence.
  rewrite Ht, Hpc.
  unfold after_refresh. cbn [properties]. rewrite Htok. unfold JS.if_truthy.
  destruct (String.eqb_spec tok ""); [congruence|].
  unfold run_jobs, processQueue.
  cbn -[retag insert lookup]. rewrite Hj. cbn [app].
  rewrite run_resolves; [|exact Hnd|].
  - cbn -[retag insert lookup]. rewrite <- app_assoc. cbn [app].
    f_equal. f_equal. f_equal. apply map_ext_in. intros q Hin.
    apply list_elem_of_In in Hin. destruct (Hq q Hin) as [Hqo Hqc].
    unfold endpoint_at. cbn -[insert lookup].
    now rewrite !lookup_insert_ne by congruence.
  - apply forallb_elem. intros q Hin. rewrite forallb_elem in Hall.
    destruct (Hq q Hin) as [Hqo Hqc].
    unfold is_queued, pc_of. cbn -[insert lookup].
    rewrite !lookup_insert_ne by congruence. apply (Hall q Hin).
Qed.

Lemma retag_pc_in p rs (m : gmap ReqId Task) x :
  x ∈ rs -> is_Some (m !! x) -> (pc <$> retag p rs m !! x) = Some p.
Proof.
  intros Hin [t Ht]. now rewrite (retag_lookup_in p rs m x t Hin Ht).
Qed.

(** A retry that comes back settles its call and fetches nothing more. *)
Lemma retry_step st x fr :
  jobs st = [] -> failedQueue st = [] -> awaits_retry st x = true ->
  jobs (step st (Deliver x fr)) = [] /\
  failedQueue (step st (Deliver x fr)) = [] /\
  fetches (step st (Deliver x fr)) = fetches st /\
  has_settled (step st (Deliver x fr)) x = true /\
  (forall y, y <> x -> tasks (step st (Deliver x fr)) !! y = tasks st !! y).
Proof.
  intros Hj Hq Hx. unfold awaits_retry, pc_of in Hx.
  destruct (tasks st !! x) as [t|] eqn:Et; [|discriminate]. simpl in Hx.
  unfold step, handle, deliver, has_settled, pc_of. rewrite Et.
  destruct (pc t) eqn:Epc; try discriminate.
  - unfold after_retry, refresh_failed, fail, processQueue, run_jobs.
    destruct fr as [e|status body]; [|destruct (ok status); [destruct body|]];
      cbn -[insert lookup]; rewrite ?Hq, ?Hj; cbn -[insert lookup];
      rewrite lookup_insert_eq; repeat split; auto;
      intros y Hy; now rewrite lookup_insert_ne.
  - unfold after_queued_retry, run_jobs.
    destruct fr as [e|status body]; [|destruct (ok status); [destruct body|]];
      cbn -[insert lookup]; rewrite ?Hq, ?Hj; cbn -[insert lookup];
      rewrite lookup_insert_eq; repeat split; auto;
      intros y Hy; now rewrite lookup_insert_ne.
Qed.

Lemma settled_step st x fr :
  jobs st = [] -> has_settled st x = true -> step st (Deliver x fr) = st.
Proof.
  intros Hj Hx. unfold has_settled, pc_of in Hx.
  destruct (tasks st !! x) as [t|] eqn:Et; [|discriminate]. simpl in Hx.
  unfold step, handle, deliver. rewrite Et.
  destruct (pc t); try discriminate; now apply run_jobs_nil.
Qed.

(** Whatever the retries come back with, and in whatever order, they settle
    their calls and nothing more is fetched. *)
Lemma retries_settle (frs : ReqId -> FetchResult) (order : list ReqId) : forall st,
  jobs st = [] -> failedQueue st = [] ->
  (forall x, x ∈ order -> awaits_retry st x = true \/ has_settled st x = true) ->
  fetches (run (map (fun x => Deliver x (frs x)) order) st) = fetches st /\
  (forall x, x ∈ order ->
     has_settled (run (map (fun x => Deliver x (frs x)) order) st) x = true) /\
  (forall y, has_settled st y = true ->
     has_settled (run (map (fun x => Deliver x (frs x)) order) st) y = true).
Proof.
  induction order as [|x order IH]; intros st Hj Hq Hall.
  - repeat split; auto. intros x Hx. now apply elem_of_nil in Hx.
  - unfold run. cbn [map fold_left].
    change (fold_left step (map (fun x0 => Deliver x0 (frs x0)) order) ?s)
      with (run (map (fun x0 => Deliver x0 (frs x0)) order) s).
    destruct (Hall x (list_elem_of_here _ _)) as [Hx|Hx].
    + destruct (retry_step st x (frs x) Hj Hq Hx) as (Hj1 & Hq1 & Hf1 & Hs1 & Hother).
      destruct (IH (step st (Deliver x (frs x))) Hj1 Hq1) as (Hf & Hset & Hmono).
      { intros y Hy. destruct (decide (y = x)) as [->|Hne]; [now right|].
        unfold awaits_retry, has_settled, pc_of. rewrite (Hother y Hne).
        apply Hall. now apply list_elem_of_further. }
      split; [congruence|]. split.
      * intros y Hy. apply elem_of_cons in Hy as [->|Hy]; auto.
      * intros y Hy. apply Hmono. destruct (decide (y = x)) as [->|Hne]; [exact Hs1|].
        unfold has_settled, pc_of in *. now rewrite (Hother y Hne).
    + rewrite (settled_step st x (frs x) Hj Hx).
      destruct (IH st Hj Hq) as (Hf & Hset & Hmono).
      { intros y Hy. apply Hall. now apply list_elem_of_further. }
      split; [exact Hf|]. split; [|exact Hmono].
      intros y Hy. apply elem_of_cons in Hy as [->|Hy]; auto.
Qed.

Lemma append_cancel_l (p a b : string) : (p ++ a)%string = (p ++ b)%string -> a = b.
Proof.
  induction p as [|c p IH]; simpl; intros H; [exact H|].
  injection H as H. now apply IH.
Qed.

Lemma url_inj (a b : string) : url a = url b -> a = b.
Proof. apply append_cancel_l. Qed.

Lemma wants_refresh_not_refresh status ep :
  wants_refresh status ep = true -> url ep <> url "/users/refresh-token".
Proof.
  intros Hw Heq. apply url_inj in Heq. subst ep. unfold wants_refresh in Hw.
  change (JS.includes "/users/refresh-token" "/refresh-token") with true in Hw.
  cbn [negb] in Hw. rewrite andb_false_r in Hw. discriminate Hw.
Qed.

(** The state a burst of 401 responses leads to, from an idle client: the
    first call owns the refresh, the others are parked behind it. *)
Lemma burst_state st r rest bodies t :
  isRefreshing st = false -> failedQueue st = [] -> jobs st = [] ->
  tasks st !! next_id st = None ->
  NoDup (r :: rest) ->
  forallb (awaits_first st) (r :: rest) = true ->
  tasks st !! r = Some t ->
  let child := next_id st in
  let owner := mkTask (endpoint t) (awaiter t) (AwaitRefresh 401 (error_body (bodies r))) in
  let refresh := mkTask "/users/refresh-token" (Some r) AwaitFetch in
  run (unauthorized bodies (r :: rest)) st =
    mkState true rest (authToken st) (hrefs st)
      (fetches st ++
         [mkFetch child (url "/users/refresh-token")
            (JS.if_truthy (authToken st) (fun tok => Some (bearer (Some tok))) None)])
      (console st)
      (retag Queued rest (<[r := owner]> (<[child := refresh]> (tasks st))))
      (S child) [] /\
  r <> child /\
  (forall x, x ∈ rest ->
     x <> r /\ x <> child /\ awaits_first st x = true /\
     (<[r := owner]> (<[child := refresh]> (tasks st))) !! x = tasks st !! x).
Proof.
  intros Hr Hq Hj Hfresh Hnd Hall Ht child owner refresh.
  apply NoDup_cons in Hnd as [Hrrest Hnd].
  simpl in Hall. apply andb_true_iff in Hall as [Hfirst Hall].
  destruct (awaits_first_task _ _ Hfirst) as (t' & Ht' & Hpc & Hw).
  rewrite Ht in Ht'. injection Ht' as <-.
  assert (Hrc : r <> child) by (intros Heq; subst child; congruence).
  assert (Hrest : forall x, x ∈ rest ->
            x <> r /\ x <> child /\ awaits_first st x = true /\
            (<[r := owner]> (<[child := refresh]> (tasks st))) !! x = tasks st !! x).
  { intros x Hx. rewrite forallb_elem in Hall. specialize (Hall x Hx).
    assert (x <> r) by (intros ->; contradiction).
    assert (x <> child).
    { intros ->. destruct (awaits_first_task _ _ Hall) as (tx & Htx & _).
      subst child. congruence. }
    repeat split; try assumption. now rewrite !lookup_insert_ne by congruence. }
  split; [|split; assumption].
  unfold run, unauthorized. cbn [map fold_left].
  rewrite (step_owns st r t (bodies r) Ht Hpc Hw Hr Hj).
  change (fold_left step (map (fun r0 => Deliver r0 (Resp 401 (bodies r0))) rest) ?s)
    with (run (unauthorized bodies rest) s).
  rewrite burst_parks; try assumption; try reflexivity.
  - cbn -[retag insert lookup]. rewrite Hq. reflexivity.
  - apply forallb_elem. intros x Hx. destruct (Hrest x Hx) as (_ & _ & Hx1 & Hx2).
    unfold awaits_first in *. cbn -[insert lookup].
    fold child. fold refresh. fold owner. now rewrite Hx2.
Qed.

Lemma burst_pending st r rest bodies t :
  isRefreshing st = false -> failedQueue st = [] -> jobs st = [] ->
  tasks st !! next_id st = None ->
  NoDup (r :: rest) ->
  forallb (awaits_first st) (r :: rest) = true ->
  tasks st !! r = Some t ->
  let st1 := run (unauthorized bodies (r :: rest)) st in
  refresh_pending st1 r (next_id st) /\
  tasks st1 !! r =
    Some (mkTask (endpoint t) (awaiter t) (AwaitRefresh 401 (error_body (bodies r)))) /\
  (forall x, x ∈ rest -> endpoint_at st1 x = endpoint_at st x).
Proof.
  intros Hr Hq Hj Hfresh Hnd Hall Ht st1.
  destruct (burst_state st r rest bodies t Hr Hq Hj Hfresh Hnd Hall Ht)
    as (Hst1 & Hrc & Hrest).
  fold st1 in Hst1.
  apply NoDup_cons in Hnd as [Hrrest Hnd].
  assert (Hchild : next_id st ∉ rest).
  { intros Hin. now destruct (Hrest _ Hin) as (_ & ? & _). }
  assert (Howner : tasks st1 !! r =
    Some (mkTask (endpoint t) (awaiter t) (AwaitRefresh 401 (error_body (bodies r))))).
  { rewrite Hst1. cbn -[retag insert lookup].
    rewrite retag_lookup_notin by exact Hrrest. apply lookup_insert_eq. }
  split; [|split; [exact Howner|]].
  - split; [|split; [|split; [|split]]].
    + rewrite Hst1. cbn -[retag insert lookup].
      rewrite retag_lookup_notin by exact Hchild.
      rewrite lookup_insert_ne by exact Hrc. apply lookup_insert_eq.
    + exists 401, (error_body (bodies r)). unfold pc_of. now rewrite Howner.
    + rewrite Hst1. cbn -[retag insert lookup].
      apply forallb_elem. intros x Hx. destruct (Hrest x Hx) as (_ & _ & Hx1 & Hx2).
      destruct (awaits_first_task _ _ Hx1) as (tx & Htx & _).
      unfold is_queued, pc_of. cbn -[retag insert lookup].
      rewrite (retag_lookup_in Queued rest _ x tx Hx); [reflexivity|].
      now rewrite Hx2.
    + rewrite Hst1. exact Hnd.
    + rewrite Hst1. reflexivity.
  - intros x Hx. destruct (Hrest x Hx) as (_ & _ & Hx1 & Hx2).
    destruct (awaits_first_task _ _ Hx1) as (tx & Htx & _).
    unfold endpoint_at. rewrite Hst1. cbn -[retag insert lookup].
    rewrite (retag_lookup_in Queued rest _ x tx Hx) by (now rewrite Hx2).
    now rewrite Htx.
Qed.

(** *** Reachable states are well formed *)

Lemma ids_unused_insert st st' r t' :
  ids_unused st -> is_Some (tasks st !! r) ->
  tasks st' = <[r := t']> (tasks st) -> next_id st' = next_id st -> ids_unused st'.
Proof.
  intros Hf [t Ht] Htasks Hnext id Hid. rewrite Htasks. rewrite Hnext in Hid.
  rewrite lookup_insert_ne; [now apply Hf|].
  intros Heq. subst. pose proof (Hf _ Hid). congruence.
Qed.

Lemma run_job_keeps st j :
  ids_unused st -> 
  ids_unused (run_job st j) /\ jobs (run_job st j) = jobs st /\
  failedQueue (run_job st j) = failedQueue st.
Proof.
  intros Hf. destruct j as [q tok|q e]; simpl;
    (destruct (tasks st !! q) as [t|] eqn:Et; [|auto]);
    (destruct (pc t); auto); (split; [|auto]);
    (eapply ids_unused_insert; [exact Hf | rewrite Et; eauto | reflexivity | reflexivity]).
Qed.

Lemma run_jobs_list_keeps js : forall st,
  ids_unused st ->
  ids_unused (fold_left run_job js st) /\ jobs (fold_left run_job js st) = jobs st /\
  failedQueue (fold_left run_job js st) = failedQueue st.
Proof.
  induction js as [|j js IH]; intros st Hf; [auto|].
  cbn [fold_left]. destruct (run_job_keeps st j Hf) as (Hf1 & Hj1 & Hq1).
  destruct (IH _ Hf1) as (Hf2 & Hj2 & Hq2).
  split; [exact Hf2|]. split; congruence.
Qed.

Lemma well_formed_init tok : well_formed (init tok).
Proof.
  split; [reflexivity|]. split; [intros id _; apply lookup_empty|].
  split; [apply NoDup_nil_2 | reflexivity].
Qed.

Lemma mapped_below st r t : ids_unused st -> tasks st !! r = Some t -> r < next_id st.
Proof.
  intros Hf Ht. destruct (Nat.lt_ge_cases r (next_id st)) as [H|H]; [exact H|].
  rewrite (Hf r H) in Ht. discriminate.
Qed.

Lemma run_jobs_well_formed st : settling st -> well_formed (run_jobs st).
Proof.
  intros [Hf Hcase]. unfold run_jobs.
  destruct Hcase as [(Hj & Hnd & Hall)|Hq].
  - rewrite Hj. cbn [fold_left].
    assert (set_jobs [] st = st) as -> by (destruct st; simpl in *; now subst).
    repeat split; assumption.
  - destruct (run_jobs_list_keeps (jobs st) (set_jobs [] st)) as (Hf' & Hj' & Hq');
      [exact Hf|].
    cbn [jobs failedQueue set_jobs] in Hj', Hq'.
    split; [exact Hj'|]. split; [exact Hf'|]. rewrite Hq', Hq.
    split; [apply NoDup_nil_2 | reflexivity].
Qed.

Lemma not_queued_notin st r t :
  forallb (is_queued st) (failedQueue st) = true ->
  tasks st !! r = Some t -> pc t <> Queued -> r ∉ failedQueue st.
Proof.
  intros Hall Ht Hpc Hin. rewrite forallb_forall in Hall.
  apply list_elem_of_In in Hin. specialize (Hall r Hin).
  unfold is_queued, pc_of in Hall. rewrite Ht in Hall. simpl in Hall.
  destruct (pc t); congruence.
Qed.

Lemma touches_keeps st st' r t :
  ids_unused st -> parked st -> tasks st !! r = Some t -> pc t <> Queued ->
  touches r st st' -> ids_unused st' /\ parked st'.
Proof.
  intros Hf (Hj & Hnd & Hall) Ht Hpc (Hn & Hq & Hj' & t' & Htasks).
  split.
  - eapply ids_unused_insert; eauto.
  - split; [congruence|]. rewrite Hq. split; [exact Hnd|].
    pose proof (not_queued_notin st r t Hall Ht Hpc) as Hr.
    apply forallb_forall. intros q Hin. rewrite forallb_forall in Hall.
    unfold is_queued, pc_of. rewrite Htasks, lookup_insert_ne.
    + apply (Hall q Hin).
    + intros ->. apply Hr. now apply list_elem_of_In.
Qed.

Lemma touches_set_pc st r t p : touches r st (set_pc r t p st).
Proof. repeat split. eexists. reflexivity. Qed.

Lemma settling_emptied st : ids_unused st -> failedQueue st = [] -> settling st.
Proof. intros Hf Hq. split; [exact Hf | now right]. Qed.

Lemma settling_parked st : ids_unused st /\ parked st -> settling st.
Proof. intros [Hf Hp]. split; [exact Hf | now left]. Qed.

Lemma refresh_failed_settling st o t e :
  ids_unused st -> tasks st !! o = Some t -> settling (refresh_failed o t e st).
Proof.
  intros Hf Ht. apply settling_emptied; [|reflexivity].
  eapply ids_unused_insert; [exact Hf | eauto | reflexivity | reflexivity].
Qed.

(** The owner resumes (lines 57-89). *)
Lemma after_refresh_settling st o t status errorData outcome :
  ids_unused st -> parked st -> tasks st !! o = Some t ->
  pc t = AwaitRefresh status errorData ->
  settling (after_refresh o t status errorData outcome st).
Proof.
  intros Hf Hp Ht Hpc. unfold after_refresh.
  destruct outcome as [[|j]|e]; cbn [properties].
  - now apply refresh_failed_settling.
  - unfold JS.if_truthy. destruct (accessToken_of j) as [tok|];
      [destruct (String.eqb tok "")|].
    + apply settling_parked. eapply touches_keeps; eauto; [congruence|].
      repeat split. eexists; reflexivity.
    + apply settling_emptied; [|reflexivity].
      eapply ids_unused_insert; [exact Hf | eauto | reflexivity | reflexivity].
    + apply settling_parked. eapply touches_keeps; eauto; [congruence|].
      repeat split. eexists; reflexivity.
  - now apply refresh_failed_settling.
Qed.

Lemma resume_awaiter_settling st r :
  ids_unused st -> parked st -> settling (resume_awaiter r st).
Proof.
  intros Hf Hp. unfold resume_awaiter.
  destruct (tasks st !! r) as [c|]; [|now apply settling_parked].
  destruct (awaiter c) as [o|]; [|now apply settling_parked].
  destruct (tasks st !! o) as [t|] eqn:Et; [|now apply settling_parked].
  destruct (pc t) eqn:Epc; try (now apply settling_parked).
  destruct (pc c); try (now apply settling_parked);
    now apply after_refresh_settling.
Qed.

Lemma handle_settling st ev : well_formed st -> settling (handle ev st).
Proof.
  intros (Hj & Hf & Hnd & Hall).
  assert (Hp : parked st) by (repeat split; assumption).
  destruct ev as [ep|r fr]; cbn [handle].
  - apply settling_parked. split.
    + intros id Hid. cbn -[insert lookup] in *.
      rewrite lookup_insert_ne by lia. apply Hf. lia.
    + split; [exact Hj|]. split; [exact Hnd|].
      apply forallb_forall. intros q Hin. rewrite forallb_forall in Hall.
      specialize (Hall q Hin). unfold is_queued, pc_of in *. cbn -[insert lookup].
      rewrite lookup_insert_ne; [exact Hall|].
      intros <-. rewrite (Hf (next_id st)) in Hall by lia. discriminate.
  - unfold deliver. destruct (tasks st !! r) as [t|] eqn:Et; [|now apply settling_parked].
    destruct (pc t) eqn:Epc; try (now apply settling_parked).
    + (* the first response *)
      unfold after_fetch. destruct (verdict (endpoint t) fr) as [j|e|status errorData].
      * apply resume_awaiter_settling;
          eapply touches_keeps; eauto; try congruence; apply touches_set_pc.
      * apply resume_awaiter_settling;
          eapply touches_keeps; eauto; try congruence;
          repeat split; eexists; reflexivity.
      * pose proof (mapped_below st r t Hf Et) as Hlt.
        pose proof (not_queued_notin st r t Hall Et ltac:(congruence)) as Hr.
        destruct (isRefreshing st); cbn [negb].
        -- (* parked behind the refresh under way *)
           assert (Hf1 : ids_unused (set_pc r t Queued (set_failedQueue (failedQueue st ++ [r]) st))).
           { eapply ids_unused_insert; [exact Hf | eauto | reflexivity | reflexivity]. }
           assert (Hp1 : parked (set_pc r t Queued (set_failedQueue (failedQueue st ++ [r]) st))).
           { split; [exact Hj|]. cbn -[insert lookup]. split.
             - apply NoDup_app. split; [exact Hnd|]. split.
               + intros x Hx Hx'. apply list_elem_of_singleton in Hx'. now subst.
               + apply NoDup_singleton.
             - rewrite forallb_app. apply andb_true_iff. split.
               + apply forallb_forall. intros q Hin. rewrite forallb_forall in Hall.
                 unfold is_queued, pc_of. cbn -[insert lookup].
                 rewrite lookup_insert_ne; [apply (Hall q Hin)|].
                 intros ->. apply Hr. now apply list_elem_of_In.
               + cbn [forallb]. unfold is_queued, pc_of. cbn -[insert lookup].
                 now rewrite lookup_insert_eq. }
           now apply resume_awaiter_settling.
        -- (* starts the refresh *)
           apply resume_awaiter_settling.
           ++ intros id Hid. cbn -[insert lookup] in *.
              rewrite !lookup_insert_ne by lia. apply Hf. lia.
           ++ split; [exact Hj|]. cbn -[insert lookup]. split; [exact Hnd|].
              apply forallb_forall. intros q Hin. rewrite forallb_forall in Hall.
              specialize (Hall q Hin). unfold is_queued, pc_of in *. cbn -[insert lookup].
              rewrite !lookup_insert_ne; [exact Hall | |].
              ** intros <-. rewrite (Hf (next_id st)) in Hall by lia. discriminate.
              ** intros <-. apply Hr. now apply list_elem_of_In.
    + (* the owner's retry *)
      unfold after_retry.
      destruct fr as [e|status body]; [now apply refresh_failed_settling|].
      destruct (ok status); [destruct body|]; try (now apply refresh_failed_settling).
      apply settling_parked. eapply touches_keeps; eauto; [congruence|].
      repeat split; eexists; reflexivity.
    + (* the retry of a parked call *)
      unfold after_queued_retry.
      destruct fr as [e|status body]; [|destruct (ok status); [destruct body|]];
        apply settling_parked; (eapply touches_keeps; eauto; [congruence|]);
        apply touches_set_pc.
Qed.

Lemma step_well_formed st ev : well_formed st -> well_formed (step st ev).
Proof. intros H. apply run_jobs_well_formed. now apply handle_settling. Qed.

(** Every state the client reaches is well formed. *)
Lemma run_well_formed evs : forall st, well_formed st -> well_formed (run evs st).
Proof.
  induction evs as [|ev evs IH]; intros st H; [exact H|].
  apply IH. now apply step_well_formed.
Qed.

Lemma reachable_well_formed evs tok : well_formed (run evs (init tok)).
Proof. apply run_well_formed, well_formed_init. Qed.

(** In a well-formed state, a refresh call in flight for an owner that
    awaits it is all [refresh_pending] asks for. *)
Lemma well_formed_pending st o child status errorData :
  well_formed st ->
  tasks st !! child = Some (mkTask "/users/refresh-token" (Some o) AwaitFetch) ->
  pc_of st o = Some (AwaitRefresh status errorData) ->
  refresh_pending st o child.
Proof.
  intros (Hj & _ & Hnd & Hall) Hc Ho. repeat split; eauto.
Qed.

Lemma retries_not_refresh st tok rs :
  forallb (awaits_first st) rs = true ->
  refresh_calls (map (retry_of st tok) rs) = [].
Proof.
  induction rs as [|x rs IH]; intros Hall; [reflexivity|].
  simpl in Hall. apply andb_true_iff in Hall as [Hx Hall].
  destruct (awaits_first_task _ _ Hx) as (t & Ht & _ & Hw).
  unfold refresh_calls in *. cbn [map]. rewrite filter_cons_False; [now apply IH|].
  unfold retry_of, endpoint_at. rewrite Ht. cbn [fetch_url from_option].
  now apply wants_refresh_not_refresh with (status := 401).
Qed.

(** C1. From an idle client (in a well-formed state, as every reachable
    state is), let the calls [r :: rest] (distinct, each
    awaiting its first response on an endpoint the refresh protocol covers)
    all come back 401, in that order. Then exactly one fetch is made: the
    refresh call, on behalf of [r]; the other calls are parked in the queue
    and fetch nothing. When the refresh returns a token, every call of the
    burst is retried once at its own URL with the header ["Bearer <token>"]
    for that token, in the order [r :: rest], no further refresh call is
    made, and the retries, whatever they come back with and in whatever
    order, settle their calls without another fetch. When the refresh
    throws, every call of the burst is rejected with the refresh error and
    nothing is retried. *)
Theorem burst_refreshes_once (st : State) (r : ReqId) (rest : list ReqId)
    (bodies : ReqId -> Body) :
  well_formed st ->
  isRefreshing st = false -> failedQueue st = [] ->
  NoDup (r :: rest) ->
  forallb (awaits_first st) (r :: rest) = true ->
  let child := next_id st in
  let st1 := run (unauthorized bodies (r :: rest)) st in
  (exists f, fetches st1 = fetches st ++ [f] /\
             fetch_by f = child /\
             fetch_url f = "https://gajpati-backend.onrender.com/api/v1/users/refresh-token") /\
  tasks st1 !! child = Some (mkTask "/users/refresh-token" (Some r) AwaitFetch) /\
  failedQueue st1 = rest /\
  forallb (is_queued st1) rest = true /\
  (forall fr (j : Json) tok,
      verdict "/users/refresh-token" fr = Returns j ->
      accessToken_of j = Some tok -> tok <> "" ->
      let st2 := step st1 (Deliver child fr) in
      fetches st2 =
        fetches st1 ++
        map (fun x =>
               mkFetch x ("https://gajpati-backend.onrender.com/api/v1" ++ endpoint_at st x)
                       (Some ("Bearer " ++ tok)%string))
            (r :: rest) /\
      length (refresh_calls (fetches st2)) = S (length (refresh_calls (fetches st))) /\
      authToken st2 = Some tok /\
      failedQueue st2 = [] /\
      forallb (awaits_retry st2) (r :: rest) = true /\
      (forall (frs : ReqId -> FetchResult) (order : list ReqId),
         (forall x, x ∈ order -> x ∈ r :: rest) ->
         let st3 := run (map (fun x => Deliver x (frs x)) order) st2 in
         fetches st3 = fetches st2 /\
         (forall x, x ∈ order -> has_settled st3 x = true))) /\
  (forall fr err,
      verdict "/users/refresh-token" fr = Throws err ->
      let st2 := step st1 (Deliver child fr) in
      fetches st2 = fetches st1 /\
      length (refresh_calls (fetches st2)) = S (length (refresh_calls (fetches st))) /\
      (forall x, x ∈ r :: rest -> pc_of st2 x = Some (Rejected err))).
Proof.
  intros (Hj & Hf & _ & _) Hr Hq Hnd Hall child st1.
  pose proof (Hf (next_id st) (le_n _)) as Hfresh.
  assert (Hfirst : awaits_first st r = true).
  { simpl in Hall. now apply andb_true_iff in Hall as [? _]. }
  destruct (awaits_first_task _ _ Hfirst) as (t & Ht & Hpc & Hw).
  destruct (burst_state st r rest bodies t Hr Hq Hj Hfresh Hnd Hall Ht)
    as (Hst1 & Hrc & Hrest).
  destruct (burst_pending st r rest bodies t Hr Hq Hj Hfresh Hnd Hall Ht)
    as (Hpend & Howner & Hep).
  fold st1 in Hst1, Hpend, Howner, Hep. fold child in Hst1, Hpend, Hrc, Hrest.
  clearbody st1 child.
  assert (Hqueue : failedQueue st1 = rest) by (rewrite Hst1; reflexivity).
  assert (Hfetch1 : fetches st1 = fetches st ++
            [mkFetch child (url "/users/refresh-token")
               (JS.if_truthy (authToken st) (fun tok => Some (bearer (Some tok))) None)])
    by (rewrite Hst1; reflexivity).
  assert (Hcalls1 : length (refresh_calls (fetches st1)) =
                    S (length (refresh_calls (fetches st)))).
  { rewrite Hfetch1. unfold refresh_calls. rewrite filter_app, length_app.
    rewrite filter_cons_True by reflexivity. rewrite filter_nil.
    cbn [length]. apply Nat.add_1_r. }
  assert (Hnd' := Hnd). apply NoDup_cons in Hnd' as [Hrrest Hndrest].
  split; [eexists; split; [exact Hfetch1 | split; reflexivity]|].
  split; [apply Hpend|].
  split; [exact Hqueue|].
  split; [rewrite <- Hqueue; apply Hpend|].
  split.
  - intros fr j tok Hv Htok Hne st2.
    pose proof (refresh_returns_step st1 r child _ fr j tok Hpend Howner Hv Htok Hne) as Hst2.
    fold st2 in Hst2. cbn [endpoint awaiter] in Hst2. rewrite Hqueue in Hst2.
    clearbody st2.
    assert (Hfetch2 : fetches st2 = fetches st1 ++ map (retry_of st tok) (r :: rest)).
    { rewrite Hst2. cbn [fetches map]. f_equal. f_equal.
      - unfold retry_of, endpoint_at. now rewrite Ht.
      - apply map_ext_in. intros x Hx. apply list_elem_of_In in Hx.
        unfold retry_of. now rewrite Hep. }
    assert (Hwait : forall x, x ∈ r :: rest -> awaits_retry st2 x = true).
    { intros x Hx. unfold awaits_retry, pc_of. rewrite Hst2. cbn -[retag insert lookup].
      apply elem_of_cons in Hx as [->|Hx].
      - rewrite retag_lookup_notin by exact Hrrest. now rewrite lookup_insert_eq.
      - destruct (Hrest x Hx) as (Hxr & Hxc & Hx1 & _).
        destruct (awaits_first_task _ _ Hx1) as (tx & Htx & _).
        rewrite retag_pc_in; [reflexivity | exact Hx |].
        rewrite !lookup_insert_ne by congruence.
        rewrite Hst1. cbn -[retag insert lookup].
        rewrite (retag_lookup_in Queued rest _ x tx Hx); [eauto|].
        now rewrite !lookup_insert_ne by congruence. }
    split; [exact Hfetch2|].
    split.
    { rewrite Hfetch2. unfold refresh_calls. rewrite filter_app, length_app.
      fold (refresh_calls (fetches st1)). rewrite Hcalls1.
      fold (refresh_calls (map (retry_of st tok) (r :: rest))).
      rewrite retries_not_refresh by exact Hall. apply Nat.add_0_r. }
    split; [rewrite Hst2; reflexivity|].
    split; [rewrite Hst2; reflexivity|].
    split; [apply forallb_elem; exact Hwait|].
    intros frs order Horder st3.
    destruct (retries_settle frs order st2) as (Hf3 & Hs3 & _);
      [rewrite Hst2; reflexivity .. | | split; assumption].
    intros x Hx. left. apply Hwait. now apply Horder.
  - intros fr err Hv st2.
    pose proof (refresh_throws_step st1 r child _ fr err Hpend Howner Hv) as Hst2.
    fold st2 in Hst2. cbn [endpoint awaiter] in Hst2. rewrite Hqueue in Hst2.
    clearbody st2.
    split; [rewrite Hst2; reflexivity|].
    split; [rewrite Hst2; exact Hcalls1|].
    intros x Hx. unfold pc_of. rewrite Hst2. cbn -[retag insert lookup].
    apply elem_of_cons in Hx as [->|Hx].
    + rewrite retag_lookup_notin by exact Hrrest. now rewrite lookup_insert_eq.
    + destruct (Hrest x Hx) as (Hxr & Hxc & Hx1 & _).
      destruct (awaits_first_task _ _ Hx1) as (tx & Htx & _).
      rewrite retag_pc_in; [reflexivity | exact Hx |].
      rewrite !lookup_insert_ne by congruence.
      rewrite Hst1. cbn -[retag insert lookup].
      rewrite (retag_lookup_in Queued rest _ x tx Hx); [eauto|].
      now rewrite !lookup_insert_ne by congruence.
Qed.

(** C3. While a refresh is in flight with calls parked in the queue, a
    refresh call that throws rejects every parked call with that same
    error, removes the stored token, assigns the login location exactly
    once whatever the length of the queue, and rejects the owner of the
    refresh with the error; the queue is then empty and the client idle. *)
Theorem refresh_failure_rejects_queue (st : State) (o child : ReqId)
    (fr : FetchResult) (err : Error) :
  refresh_pending st o child ->
  verdict "/users/refresh-token" fr = Throws err ->
  let st' := step st (Deliver child fr) in
  (forall q, q ∈ failedQueue st -> pc_of st' q = Some (Rejected err)) /\
  authToken st' = None /\
  hrefs st' = hrefs st ++ ["/login"] /\
  pc_of st' o = Some (Rejected err) /\
  failedQueue st' = [] /\
  isRefreshing st' = false /\
  fetches st' = fetches st.
Proof.
  intros Hp Hv st'.
  destruct (refresh_pending_owner _ _ _ Hp) as (t & status & errorData & Ht & Hpc & Hne & Hq).
  pose proof (refresh_throws_step st o child t fr err Hp Ht Hv) as Hst'.
  fold st' in Hst'. clearbody st'.
  assert (Ho : o ∉ failedQueue st) by (intros Hin; now destruct (Hq o Hin)).
  destruct Hp as (Hc & _ & Hall & Hnd & Hj).
  rewrite Hst'. cbn -[retag insert lookup]. unfold pc_of. cbn -[retag insert lookup].
  split; [|split; [reflexivity|split; [reflexivity|split; [|auto]]]].
  - intros q Hin. destruct (Hq q Hin) as [Hqo Hqc].
    rewrite forallb_elem in Hall. destruct (is_queued_task _ _ (Hall q Hin)) as (tq & Htq & _).
    rewrite retag_pc_in; [reflexivity | exact Hin |].
    rewrite !lookup_insert_ne by congruence. eauto.
  - rewrite retag_lookup_notin by exact Ho. now rewrite lookup_insert_eq.
Qed.

(** A refresh response without a token: the owner falls through to line
    114 and the queue is left as it is. *)
Lemma refresh_tokenless_step st o child fr (j : Json) :
  refresh_pending st o child ->
  verdict "/users/refresh-token" fr = Returns j ->
  JS.truthy (accessToken_of j) = false ->
  isRefreshing (step st (Deliver child fr)) = false /\
  failedQueue (step st (Deliver child fr)) = failedQueue st /\
  forallb (is_queued (step st (Deliver child fr))) (failedQueue st) = true.
Proof.
  intros Hp Hv Hfalsy.
  destruct (refresh_pending_owner _ _ _ Hp) as (t & status & errorData & Ht & Hpc & Hne & Hq).
  destruct Hp as (Hc & _ & Hall & Hnd & Hj).
  unfold step, handle, deliver. rewrite Hc. cbn [pc].
  unfold after_fetch. cbn [endpoint]. rewrite Hv.
  unfold resume_awaiter.
  rewrite tasks_set_pc, lookup_insert_eq. cbn [awaiter pc endpoint].
  rewrite lookup_insert_ne by congruence.
  rewrite Ht, Hpc.
  unfold after_refresh. cbn [properties].
  assert (Hno : forall (A : Type) (yes : string -> A) (no : A),
             JS.if_truthy (accessToken_of j) yes no = no).
  { intros A yes no. unfold JS.truthy, JS.if_truthy in *.
    destruct (accessToken_of j) as [s|]; [|reflexivity].
    destruct (String.eqb s ""); [reflexivity | discriminate]. }
  rewrite Hno. unfold fail, run_jobs. cbn -[insert lookup]. rewrite Hj.
  cbn -[insert lookup]. repeat split.
  apply forallb_elem. intros q Hin. rewrite forallb_elem in Hall.
  destruct (Hq q Hin) as [Hqo Hqc].
  unfold is_queued, pc_of. cbn -[insert lookup].
  rewrite !lookup_insert_ne by congruence. apply (Hall q Hin).
Qed.

(** The retry of a parked call that comes back with a failure status. *)
Lemma queued_retry_message st q t status body :
  tasks st !! q = Some t -> pc t = AwaitQueuedRetry -> jobs st = [] ->
  ok status = false ->
  pc_of (step st (Deliver q (Resp status body))) q =
    Some (Rejected (mkError (http_error status))).
Proof.
  intros Ht Hpc Hj Hok.
  unfold step, handle, deliver, pc_of. rewrite Ht, Hpc.
  unfold after_queued_retry. rewrite Hok. unfold run_jobs. cbn -[insert lookup].
  rewrite Hj. cbn -[insert lookup]. now rewrite lookup_insert_eq.
Qed.

(** A failure status met outside the refresh protocol on the first fetch. *)
Lemma direct_failure_message ep status body :
  ok status = false -> wants_refresh status ep = false ->
  verdict ep (Resp status body) = Throws (http_failure (error_body body) status) /\
  (forall j : Json, error_body body = j ->
     http_failure (error_body body) status =
       mkError (JS.or_else (json_message j) (http_error status))).
Proof.
  intros Hok Hw. unfold verdict. rewrite Hok, Hw. split; [reflexivity|].
  now intros j ->.
Qed.

End ClientProperties.

(** *** The client on concrete inputs *)

Section ClientExamples.

Import Api Samples.

Lemma burst_refreshes_once_witness :
  fetches (step burst (Deliver 3 (refreshed "new"))) =
    fetches burst ++
      [mkFetch 0 "https://gajpati-backend.onrender.com/api/v1/products/1" (Some "Bearer new");
       mkFetch 1 "https://gajpati-backend.onrender.com/api/v1/plants/2" (Some "Bearer new");
       mkFetch 2 "https://gajpati-backend.onrender.com/api/v1/blogs/3" (Some "Bearer new")] /\
  length (refresh_calls (fetches (step burst (Deliver 3 (refreshed "new"))))) = 1 /\
  (forall x, x ∈ [0; 1; 2] ->
     pc_of (step burst (Deliver 3 refused)) x =
       Some (Rejected (mkError "Invalid refresh token"))).
Proof.
  destruct (burst_refreshes_once three_calls 0 [1; 2] (fun _ => expired)
              (reachable_well_formed _ _) eq_refl eq_refl
              ltac:(refine (bool_decide_unpack _ _); vm_compute; exact I)
              eq_refl)
    as (_ & _ & _ & _ & Hyes & Hno).
  split; [|split].
  - now destruct (Hyes (refreshed "new") (token_body "new") "new"
                    eq_refl eq_refl ltac:(discriminate)) as (H & _).
  - now destruct (Hyes (refreshed "new") (token_body "new") "new"
                    eq_refl eq_refl ltac:(discriminate)) as (_ & H & _).
  - now destruct (Hno refused (mkError "Invalid refresh token") eq_refl) as (_ & _ & H).
Defined.

Lemma burst_is_pending : refresh_pending burst 0 3.
Proof.
  split; [reflexivity|]. split; [eexists _, _; reflexivity|].
  split; [reflexivity|]. split; [|reflexivity].
  change (failedQueue burst) with [1; 2].
  refine (bool_decide_unpack _ _); vm_compute; exact I.
Defined.

Lemma refresh_failure_rejects_queue_witness :
  (forall q, q ∈ [1; 2] ->
     pc_of (step burst (Deliver 3 refused)) q =
       Some (Rejected (mkError "Invalid refresh token"))) /\
  authToken (step burst (Deliver 3 refused)) = None /\
  hrefs (step burst (Deliver 3 refused)) = ["/login"] /\
  pc_of (step burst (Deliver 3 refused)) 0 =
    Some (Rejected (mkError "Invalid refresh token")).
Proof.
  destruct (refresh_failure_rejects_queue burst 0 3 refused
              (mkError "Invalid refresh token") burst_is_pending eq_refl)
    as (Hq & Htok & Hhref & Ho & _).
  split; [exact Hq|]. split; [exact Htok|]. split; [exact Hhref | exact Ho].
Defined.

(** C2 fails on the code. Calls 1 and 2 are parked behind the refresh owned
    by call 0; the refresh endpoint answers 200 with a body that has no
    access token. The owner is rejected with the error of its own 401 and
    the client goes back to idle, but [processQueue] is never called: the
    queue still holds calls 1 and 2, whose promises stay pending. *)
Theorem tokenless_refresh_strands_queue :
  isRefreshing (step burst (Deliver 3 tokenless)) = false /\
  failedQueue (step burst (Deliver 3 tokenless)) = [1; 2] /\
  pc_of (step burst (Deliver 3 tokenless)) 1 = Some Queued /\
  pc_of (step burst (Deliver 3 tokenless)) 2 = Some Queued /\
  pc_of (step burst (Deliver 3 tokenless)) 0 = Some (Rejected (mkError "jwt expired")) /\
  fetches (step burst (Deliver 3 tokenless)) = fetches burst.
Proof. vm_compute. repeat split. Qed.

(** The same happens to a call whose 401 arrives while the owner's retry is
    under way ([isRefreshing] is still set) when that retry succeeds. *)
Lemma late_unauthorized_strands_queue :
  let st :=
    run [Deliver 0 (Resp 401 expired); Deliver 3 (refreshed "new");
         Deliver 1 (Resp 401 expired); Deliver 0 fine] three_calls in
  isRefreshing st = false /\ failedQueue st = [1] /\ pc_of st 1 = Some Queued /\
  pc_of st 0 = Some (Resolved empty_json).
Proof. vm_compute. repeat split. Qed.

(** C9 fails on the code. After a successful refresh, the retry of parked
    call 1 and the retry of owner call 0 both come back 500 with the body
    [{message: "Database unavailable"}]. The owner is rejected with the
    backend's message; the parked call is rejected with the generic
    message, because line 99 reads [message] off a promise that was not
    awaited. *)
Theorem queued_retry_hides_backend_message :
  let st := step burst (Deliver 3 (refreshed "new")) in
  pc_of st 1 = Some AwaitQueuedRetry /\
  pc_of (step st (Deliver 1 unavailable)) 1 =
    Some (Rejected (mkError "HTTP error! status: 500")) /\
  pc_of st 0 = Some AwaitRetry /\
  pc_of (step st (Deliver 0 unavailable)) 0 =
    Some (Rejected (mkError "Database unavailable")).
Proof. vm_compute. repeat split. Qed.

End ClientExamples.

(** ** Further properties *)

Section FlightProperties.
Import Api Flight.
Implicit Types (st : State) (r o q x c : nat) (t : Task).

Lemma owns_insert st st' r t' o :
  tasks st' = <[r := t']> (tasks st) ->
  owns st' o = if decide (o = r) then
                 match pc t' with AwaitRefresh _ _ | AwaitRetry => true | _ => false end
               else owns st o.
Proof.
  intros Ht. unfold owns, pc_of. rewrite Ht.
  destruct (decide (o = r)) as [->|Hne].
  - rewrite lookup_insert_eq. simpl. destruct (pc t'); reflexivity.
  - now rewrite lookup_insert_ne.
Qed.

Lemma refreshing_insert st st' r t' c :
  tasks st' = <[r := t']> (tasks st) ->
  refreshing st' c = if decide (c = r) then
                       match awaiter t', pc t' with Some _, AwaitFetch => true | _, _ => false end
                     else refreshing st c.
Proof.
  intros Ht. unfold refreshing. rewrite Ht.
  destruct (decide (c = r)) as [->|Hne].
  - now rewrite lookup_insert_eq.
  - now rewrite lookup_insert_ne.
Qed.

Lemma refreshing_task st c :
  refreshing st c = true ->
  exists t o, tasks st !! c = Some t /\ awaiter t = Some o /\ pc t = AwaitFetch.
Proof.
  unfold refreshing. destruct (tasks st !! c) as [t|]; [|discriminate].
  destruct (awaiter t) as [o|] eqn:Ea; [|discriminate].
  destruct (pc t) eqn:Ep; try discriminate. eauto.
Qed.

Lemma refreshing_owned st c :
  single_flight st -> refreshing st c = true -> exists o, owns st o = true /\
    exists s e, pc_of st o = Some (AwaitRefresh s e).
Proof.
  intros (_ & _ & H3 & _) Hc. destruct (refreshing_task _ _ Hc) as (t & o & Ht & Ha & Hp).
  destruct (H3 c t o Ht Ha Hp) as (s & e & Ho). exists o. split; [|eauto].
  unfold owns. now rewrite Ho.
Qed.

(** A bystander changes: nothing of the discipline moves. *)
Lemma single_flight_bystander st st' r t t' :
  single_flight st -> tasks st !! r = Some t -> owns st r = false ->
  tasks st' = <[r := t']> (tasks st) -> isRefreshing st' = isRefreshing st ->
  bystander t' = true -> single_flight st'.
Proof.
  intros (H1 & H2 & H3 & H4) Ht Hr Htasks Hflag Hby.
  assert (Hown : forall o, owns st' o = true -> owns st o = true /\ o <> r).
  { intros o. rewrite (owns_insert st st' r t' o Htasks).
    destruct (decide (o = r)) as [->|Hne]; [|auto].
    unfold bystander in Hby. destruct (pc t'); discriminate. }
  assert (Href : forall c, refreshing st' c = true -> refreshing st c = true /\ c <> r).
  { intros c. rewrite (refreshing_insert st st' r t' c Htasks).
    destruct (decide (c = r)) as [->|Hne]; [|auto].
    unfold bystander in Hby. destruct (awaiter t'), (pc t'); discriminate. }
  split; [|split; [|split]].
  - intros o Ho. rewrite Hflag. apply (H1 o). now apply Hown.
  - intros o1 o2 Ho1 Ho2. apply H2; now apply Hown.
  - intros c tc o Hc Ha Hp.
    assert (Hrc : refreshing st' c = true) by (unfold refreshing; now rewrite Hc, Ha, Hp).
    destruct (Href c Hrc) as [Hrc' Hne].
    rewrite Htasks, lookup_insert_ne in Hc by congruence.
    destruct (H3 c tc o Hc Ha Hp) as (s & e & Ho). exists s, e.
    unfold pc_of in *. rewrite Htasks, lookup_insert_ne; [exact Ho|].
    intros <-. unfold owns, pc_of in Hr. rewrite Ht in *. simpl in *.
    injection Ho as Ho. rewrite Ho in Hr. discriminate.
  - intros c1 c2 Hc1 Hc2. apply H4; now apply Href.
Qed.

(** The owner leaves the guarded block. *)
Lemma single_flight_release st st' o t' :
  single_flight st -> owns st o = true -> (forall c, refreshing st c = false) ->
  tasks st' = <[o := t']> (tasks st) -> bystander t' = true -> single_flight st'.
Proof.
  intros (H1 & H2 & H3 & H4) Ho Hnone Htasks Hby.
  assert (Hown : forall o', owns st' o' = false).
  { intros o'. rewrite (owns_insert st st' o t' o' Htasks).
    destruct (decide (o' = o)) as [->|Hne].
    - unfold bystander in Hby. destruct (pc t'); try reflexivity; discriminate.
    - destruct (owns st o') eqn:E; [|reflexivity]. now specialize (H2 _ _ E Ho). }
  assert (Href : forall c, refreshing st' c = false).
  { intros c. rewrite (refreshing_insert st st' o t' c Htasks).
    destruct (decide (c = o)) as [->|Hne]; [|apply Hnone].
    unfold bystander in Hby. destruct (awaiter t'), (pc t'); try reflexivity; discriminate. }
  split; [|split; [|split]].
  - intros o' Ho'. rewrite Hown in Ho'. discriminate.
  - intros o1 o2 Ho1. rewrite Hown in Ho1. discriminate.
  - intros c tc o' Hc Ha Hp.
    assert (Hrc : refreshing st' c = true) by (unfold refreshing; now rewrite Hc, Ha, Hp).
    rewrite Href in Hrc. discriminate.
  - intros c1 c2 Hc1. rewrite Href in Hc1. discriminate.
Qed.

(** The owner goes from awaiting the refresh to awaiting its retry. *)
Lemma single_flight_advance st st' o t' :
  single_flight st -> owns st o = true -> (forall c, refreshing st c = false) ->
  tasks st' = <[o := t']> (tasks st) -> isRefreshing st' = isRefreshing st ->
  pc t' = AwaitRetry -> single_flight st'.
Proof.
  intros (H1 & H2 & H3 & H4) Ho Hnone Htasks Hflag Hpc.
  assert (Hown : forall o', owns st' o' = true -> o' = o).
  { intros o'. rewrite (owns_insert st st' o t' o' Htasks).
    destruct (decide (o' = o)) as [->|Hne]; [reflexivity|].
    intros E. now apply H2. }
  assert (Href : forall c, refreshing st' c = false).
  { intros c. rewrite (refreshing_insert st st' o t' c Htasks).
    destruct (decide (c = o)) as [->|Hne]; [|apply Hnone].
    rewrite Hpc. now destruct (awaiter t'). }
  split; [|split; [|split]].
  - intros o' _. rewrite Hflag. now apply (H1 o).
  - intros o1 o2 Ho1 Ho2. rewrite (Hown _ Ho1), (Hown _ Ho2). reflexivity.
  - intros c tc o' Hc Ha Hp.
    assert (Hrc : refreshing st' c = true) by (unfold refreshing; now rewrite Hc, Ha, Hp).
    rewrite Href in Hrc. discriminate.
  - intros c1 c2 Hc1. rewrite Href in Hc1. discriminate.
Qed.

Lemma idle_no_owner st o : single_flight st -> isRefreshing st = false -> owns st o = false.
Proof.
  intros (H1 & _) Hidle. destruct (owns st o) eqn:E; [|reflexivity].
  rewrite (H1 o E) in Hidle. discriminate.
Qed.

Lemma idle_no_refresh st c : single_flight st -> isRefreshing st = false -> refreshing st c = false.
Proof.
  intros Hsf Hidle. destruct (refreshing st c) eqn:E; [|reflexivity].
  destruct (refreshing_owned st c Hsf E) as (o & Ho & _).
  rewrite (idle_no_owner st o Hsf Hidle) in Ho. discriminate.
Qed.

(** An idle client starts a refresh (lines 53-57). *)
Lemma single_flight_start st st' r child tr tc :
  single_flight st -> isRefreshing st = false -> r <> child ->
  tasks st' = <[r := tr]> (<[child := tc]> (tasks st)) -> isRefreshing st' = true ->
  (exists s e, pc tr = AwaitRefresh s e) ->
  awaiter tc = Some r -> pc tc = AwaitFetch -> single_flight st'.
Proof.
  intros Hsf Hidle Hne Htasks Hflag (s & e & Hptr) Hatc Hptc.
  assert (Hown : forall o, owns st' o = true -> o = r).
  { intros o. unfold owns, pc_of. rewrite Htasks.
    destruct (decide (o = r)) as [->|Hor]; [reflexivity|].
    rewrite lookup_insert_ne by congruence.
    destruct (decide (o = child)) as [->|Hoc].
    - rewrite lookup_insert_eq. simpl. rewrite Hptc. discriminate.
    - rewrite lookup_insert_ne by congruence. intros E.
      pose proof (idle_no_owner st o Hsf Hidle) as Hno. unfold owns, pc_of in Hno.
      rewrite Hno in E. discriminate. }
  assert (Href : forall c, refreshing st' c = true -> c = child).
  { intros c. unfold refreshing. rewrite Htasks.
    destruct (decide (c = r)) as [->|Hcr].
    - rewrite lookup_insert_eq, Hptr. now destruct (awaiter tr).
    - rewrite lookup_insert_ne by congruence.
      destruct (decide (c = child)) as [->|Hcc]; [reflexivity|].
      rewrite lookup_insert_ne by congruence. intros E.
      pose proof (idle_no_refresh st c Hsf Hidle) as Hno. unfold refreshing in Hno.
      rewrite Hno in E. discriminate. }
  split; [|split; [|split]].
  - intros o _. exact Hflag.
  - intros o1 o2 Ho1 Ho2. rewrite (Hown _ Ho1), (Hown _ Ho2). reflexivity.
  - intros c t o Hc Ha Hp.
    assert (Hrc : refreshing st' c = true) by (unfold refreshing; now rewrite Hc, Ha, Hp).
    apply Href in Hrc. subst c. rewrite Htasks in Hc.
    rewrite lookup_insert_ne, lookup_insert_eq in Hc by congruence.
    injection Hc as <-. rewrite Hatc in Ha. injection Ha as <-.
    exists s, e. unfold pc_of. rewrite Htasks, lookup_insert_eq. simpl. now rewrite Hptr.
  - intros c1 c2 Hc1 Hc2. rewrite (Href _ Hc1), (Href _ Hc2). reflexivity.
Qed.

Lemma queued_not_owner st q t : tasks st !! q = Some t -> pc t = Queued -> owns st q = false.
Proof. intros Ht Hp. unfold owns, pc_of. now rewrite Ht; simpl; rewrite Hp. Qed.

Lemma run_job_single_flight st j : single_flight st -> single_flight (run_job st j).
Proof.
  intros Hsf. destruct j as [q tok|q e]; simpl;
    (destruct (tasks st !! q) as [t|] eqn:Et; [|exact Hsf]);
    (destruct (pc t) eqn:Ep; try exact Hsf);
    (eapply single_flight_bystander;
       [exact Hsf | exact Et | now apply (queued_not_owner st q t)
        | reflexivity | reflexivity | reflexivity]).
Qed.

Lemma single_flight_same st st' :
  tasks st' = tasks st -> isRefreshing st' = isRefreshing st ->
  single_flight st -> single_flight st'.
Proof.
  intros Ht Hf. unfold single_flight, owns, refreshing, pc_of. now rewrite Ht, Hf.
Qed.

Lemma run_jobs_single_flight st : single_flight st -> single_flight (run_jobs st).
Proof.
  intros Hsf. unfold run_jobs.
  assert (H0 : single_flight (set_jobs [] st)) by (now apply (single_flight_same st)).
  revert H0. generalize (set_jobs [] st). induction (jobs st) as [|j js IH]; intros s Hs.
  - exact Hs.
  - cbn [fold_left]. apply IH. now apply run_job_single_flight.
Qed.

Lemma after_refresh_single_flight st o t status errorData outcome :
  single_flight st -> tasks st !! o = Some t -> pc t = AwaitRefresh status errorData ->
  (forall c, refreshing st c = false) ->
  single_flight (after_refresh o t status errorData outcome st).
Proof.
  intros Hsf Ht Hp Hnone.
  assert (Ho : owns st o = true) by (unfold owns, pc_of; now rewrite Ht; simpl; rewrite Hp).
  unfold after_refresh. destruct outcome as [[|j]|e]; cbn [properties].
  - eapply single_flight_release; eauto; reflexivity.
  - unfold JS.if_truthy. destruct (accessToken_of j) as [tok|];
      [destruct (String.eqb tok "")|].
    + eapply single_flight_release; eauto; reflexivity.
    + eapply single_flight_advance; eauto; reflexivity.
    + eapply single_flight_release; eauto; reflexivity.
  - eapply single_flight_release; eauto; reflexivity.
Qed.

Lemma resume_awaiter_single_flight st r :
  single_flight st -> (forall c, refreshing st c = false) ->
  single_flight (resume_awaiter r st).
Proof.
  intros Hsf Hnone. unfold resume_awaiter.
  destruct (tasks st !! r) as [c|]; [|exact Hsf].
  destruct (awaiter c) as [o|]; [|exact Hsf].
  destruct (tasks st !! o) as [t|] eqn:Et; [|exact Hsf].
  destruct (pc t) eqn:Ep; try exact Hsf.
  destruct (pc c); try exact Hsf; now eapply after_refresh_single_flight.
Qed.

(** A call that leaves [AwaitFetch] for a bystander's place: no refresh call
    is in flight afterwards if it was one itself, and none is added. *)
Lemma settle_first st st' r t t' :
  single_flight st -> tasks st !! r = Some t -> pc t = AwaitFetch ->
  tasks st' = <[r := t']> (tasks st) -> isRefreshing st' = isRefreshing st ->
  bystander t' = true ->
  single_flight st' /\
  (awaiter t <> None -> forall c, refreshing st' c = false).
Proof.
  intros Hsf Ht Hp Htasks Hflag Hby.
  assert (Hr : owns st r = false) by (unfold owns, pc_of; now rewrite Ht; simpl; rewrite Hp).
  split; [eapply single_flight_bystander; eauto|].
  intros Ha c. rewrite (refreshing_insert st st' r t' c Htasks).
  destruct (decide (c = r)) as [->|Hne].
  - unfold bystander in Hby. destruct (awaiter t'), (pc t'); try reflexivity; discriminate.
  - destruct (refreshing st c) eqn:E; [|reflexivity].
    destruct Hsf as (_ & _ & _ & H4). exfalso. apply Hne. apply H4; [exact E|].
    unfold refreshing. rewrite Ht, Hp. now destruct (awaiter t).
Qed.

Lemma resume_settled_single_flight st st' r t t' :
  single_flight st -> tasks st !! r = Some t -> pc t = AwaitFetch ->
  tasks st' = <[r := t']> (tasks st) -> isRefreshing st' = isRefreshing st ->
  awaiter t' = awaiter t -> bystander t' = true ->
  single_flight (resume_awaiter r st').
Proof.
  intros Hsf Ht Hp Htasks Hflag Haw Hby.
  destruct (settle_first st st' r t t' Hsf Ht Hp Htasks Hflag Hby) as [Hsf' Hnone].
  destruct (awaiter t) as [o|] eqn:Ea.
  - apply resume_awaiter_single_flight; [exact Hsf'|]. now apply Hnone.
  - unfold resume_awaiter. rewrite Htasks, lookup_insert_eq, Haw. exact Hsf'.
Qed.

Lemma owner_no_refresh st o t :
  single_flight st -> tasks st !! o = Some t -> pc t = AwaitRetry ->
  forall c, refreshing st c = false.
Proof.
  intros Hsf Ht Hp c. destruct (refreshing st c) eqn:E; [|reflexivity].
  destruct (refreshing_owned st c Hsf E) as (o' & Ho' & s & e & Hpc').
  assert (Ho : owns st o = true) by (unfold owns, pc_of; now rewrite Ht; simpl; rewrite Hp).
  destruct Hsf as (_ & H2 & _). rewrite (H2 _ _ Ho' Ho) in Hpc'.
  unfold pc_of in Hpc'. rewrite Ht in Hpc'. simpl in Hpc'. congruence.
Qed.

Lemma handle_single_flight st ev :
  well_formed st -> single_flight st -> single_flight (handle ev st).
Proof.
  intros (Hj & Hf & Hnd & Hall) Hsf. destruct ev as [ep|r fr]; cbn [handle].
  - (* a new call *)
    destruct Hsf as (H1 & H2 & H3 & H4).
    assert (Hown : forall o, owns (request_start ep None st) o = owns st o).
    { intros o. unfold owns, pc_of. cbn -[insert lookup].
      destruct (decide (o = next_id st)) as [->|Hne].
      - rewrite lookup_insert_eq, (Hf (next_id st)) by lia. reflexivity.
      - now rewrite lookup_insert_ne. }
    assert (Href : forall c, refreshing (request_start ep None st) c = refreshing st c).
    { intros c. unfold refreshing. cbn -[insert lookup].
      destruct (decide (c = next_id st)) as [->|Hne].
      - rewrite lookup_insert_eq, (Hf (next_id st)) by lia. reflexivity.
      - now rewrite lookup_insert_ne. }
    split; [|split; [|split]].
    + intros o Ho. rewrite Hown in Ho. now apply (H1 o).
    + intros o1 o2 Ho1 Ho2. rewrite Hown in Ho1, Ho2. now apply H2.
    + intros c t o Hc Ha Hp.
      assert (Hrc : refreshing (request_start ep None st) c = true)
        by (unfold refreshing; now rewrite Hc, Ha, Hp).
      rewrite Href in Hrc. destruct (refreshing_task _ _ Hrc) as (t0 & o0 & Ht0 & _ & _).
      assert (c <> next_id st) by (intros ->; rewrite (Hf (next_id st)) in Ht0 by lia; discriminate).
      cbn -[insert lookup] in Hc. rewrite lookup_insert_ne in Hc by congruence.
      destruct (H3 c t o Hc Ha Hp) as (s & e & Ho). exists s, e.
      unfold pc_of in *. cbn -[insert lookup]. rewrite lookup_insert_ne; [exact Ho|].
      intros <-. rewrite (Hf (next_id st)) in Ho by lia. discriminate.
    + intros c1 c2. rewrite !Href. apply H4.
  - unfold deliver. destruct (tasks st !! r) as [t|] eqn:Et; [|exact Hsf].
    destruct (pc t) eqn:Epc; try exact Hsf.
    + unfold after_fetch. destruct (verdict (endpoint t) fr) as [j|e|status errorData].
      * eapply resume_settled_single_flight; eauto; reflexivity.
      * eapply resume_settled_single_flight; eauto; reflexivity.
      * destruct (isRefreshing st) eqn:Eflag; cbn [negb].
        -- eapply resume_settled_single_flight; eauto; reflexivity.
        -- pose proof (mapped_below st r t Hf Et) as Hlt.
           assert (Hsf' : single_flight
                     (set_pc r t (AwaitRefresh status errorData)
                        (request_start "/users/refresh-token" (Some r)
                           (set_isRefreshing true st)))).
           { eapply (single_flight_start st _ r (next_id st)); eauto; try reflexivity; lia. }
           unfold resume_awaiter. cbn -[insert lookup]. rewrite lookup_insert_eq. cbn [awaiter pc].
           destruct (awaiter t) as [o|]; [|exact Hsf'].
           match goal with |- context [<[r := ?x]> ?m !! o] =>
             destruct (<[r := x]> m !! o) as [to|]; [|exact Hsf'] end.
           destruct (pc to); exact Hsf'.
    + (* the owner's retry *)
      pose proof (owner_no_refresh st r t Hsf Et Epc) as Hnone.
      assert (Ho : owns st r = true) by (unfold owns, pc_of; now rewrite Et; simpl; rewrite Epc).
      unfold after_retry, refresh_failed.
      destruct fr as [e|status body]; [|destruct (ok status); [destruct body|]];
        eapply single_flight_release; eauto; reflexivity.
    + (* the retry of a parked call *)
      assert (Ho : owns st r = false) by (unfold owns, pc_of; now rewrite Et; simpl; rewrite Epc).
      unfold after_queued_retry.
      destruct fr as [e|status body]; [|destruct (ok status); [destruct body|]];
        eapply single_flight_bystander; eauto; reflexivity.
Qed.

Lemma step_single_flight st ev :
  well_formed st -> single_flight st -> single_flight (step st ev).
Proof. intros Hw Hsf. apply run_jobs_single_flight. now apply handle_single_flight. Qed.

Lemma single_flight_init tok : single_flight (init tok).
Proof.
  unfold single_flight, owns, refreshing, pc_of. cbn -[lookup].
  repeat split; intros *; rewrite ?lookup_empty; simpl; discriminate.
Qed.

Lemma reachable_single_flight (evs : list Event) (tok : option string) :
  single_flight (run evs (init tok)).
Proof.
  assert (H : well_formed (run evs (init tok)) /\ single_flight (run evs (init tok))).
  { unfold run. rewrite <- (rev_involutive evs). generalize (rev evs). clear evs.
    intros evs. induction evs as [|ev evs IH]; simpl.
    - split; [apply well_formed_init | apply single_flight_init].
    - rewrite fold_left_app. simpl. destruct IH as [Hw Hs].
      split; [now apply step_well_formed | now apply step_single_flight]. }
  apply H.
Qed.

End FlightProperties.

Section BudgetProperties.
Import Api Budget.
Implicit Types (st : State) (r o q x c : nat) (t : Task).

Lemma fetch_count_app st st' f :
  fetches st' = fetches st ++ [f] ->
  forall r, fetch_count st' r =
            if decide (fetch_by f = r) then S (fetch_count st r) else fetch_count st r.
Proof.
  intros Hf r. unfold fetch_count. rewrite Hf, filter_app, length_app.
  destruct (decide (fetch_by f = r)) as [Heq|Hne].
  - rewrite filter_cons_True by exact Heq. rewrite filter_nil. cbn [length]. apply Nat.add_1_r.
  - rewrite filter_cons_False by exact Hne. rewrite filter_nil. cbn [length]. apply Nat.add_0_r.
Qed.

(** A call moves on without fetching. *)
Lemma budgeted_move st st' r t' :
  budgeted st -> tasks st' = <[r := t']> (tasks st) -> fetches st' = fetches st ->
  within (Some (pc t')) (fetch_count st r) = true -> budgeted st'.
Proof.
  intros Hb Ht Hf Hw x. unfold fetch_count, pc_of in *. rewrite Hf, Ht.
  destruct (decide (x = r)) as [->|Hne].
  - rewrite lookup_insert_eq. exact Hw.
  - rewrite lookup_insert_ne by congruence. apply Hb.
Qed.

(** A call fetches and moves on. *)
Lemma budgeted_fetch st st' r t' u a :
  budgeted st -> tasks st' = <[r := t']> (tasks st) ->
  fetches st' = fetches st ++ [mkFetch r u a] ->
  within (Some (pc t')) (S (fetch_count st r)) = true -> budgeted st'.
Proof.
  intros Hb Ht Hf Hw x. rewrite (fetch_count_app st st' _ Hf x). cbn [fetch_by].
  unfold pc_of. rewrite Ht.
  destruct (decide (r = x)) as [->|Hne].
  - rewrite lookup_insert_eq. exact Hw.
  - rewrite lookup_insert_ne by congruence. apply Hb.
Qed.

Lemma budget_at st r t :
  budgeted st -> tasks st !! r = Some t -> within (Some (pc t)) (fetch_count st r) = true.
Proof. intros Hb Ht. specialize (Hb r). unfold pc_of in Hb. now rewrite Ht in Hb. Qed.

Ltac budget_known :=
  match goal with
  | Hb : budgeted ?st, Ht : tasks ?st !! ?r = Some ?t, Hp : pc ?t = _ |- _ =>
      let H := fresh "Hn" in
      pose proof (budget_at st r t Hb Ht) as H; rewrite Hp in H; cbn [within] in H;
      apply Nat.eqb_eq in H
  end.

Lemma run_job_budgeted st j : budgeted st -> budgeted (run_job st j).
Proof.
  intros Hb. destruct j as [q tok|q e]; simpl;
    (destruct (tasks st !! q) as [t|] eqn:Et; [|exact Hb]);
    (destruct (pc t) eqn:Ep; try exact Hb); budget_known.
  - eapply budgeted_fetch; [exact Hb | reflexivity | reflexivity |].
    cbn [pc within]. now rewrite Hn.
  - eapply budgeted_move; [exact Hb | reflexivity | reflexivity |].
    cbn [pc within]. now rewrite Hn.
Qed.

Lemma budgeted_same st st' :
  tasks st' = tasks st -> fetches st' = fetches st -> budgeted st -> budgeted st'.
Proof. intros Ht Hf Hb r. unfold pc_of, fetch_count. rewrite Ht, Hf. apply Hb. Qed.

Lemma run_jobs_budgeted st : budgeted st -> budgeted (run_jobs st).
Proof.
  intros Hb. unfold run_jobs.
  assert (H0 : budgeted (set_jobs [] st)) by (now apply (budgeted_same st)).
  revert H0. generalize (set_jobs [] st). induction (jobs st) as [|j js IH]; intros s Hs.
  - exact Hs.
  - cbn [fold_left]. apply IH. now apply run_job_budgeted.
Qed.

Lemma after_refresh_budgeted st o t status errorData outcome :
  budgeted st -> tasks st !! o = Some t -> pc t = AwaitRefresh status errorData ->
  budgeted (after_refresh o t status errorData outcome st).
Proof.
  intros Hb Ht Hp. budget_known. unfold after_refresh.
  destruct outcome as [[|j]|e]; cbn [properties].
  - eapply budgeted_move; [exact Hb | reflexivity | reflexivity |].
    cbn [pc within]. now rewrite Hn.
  - unfold JS.if_truthy. destruct (accessToken_of j) as [tok|];
      [destruct (String.eqb tok "")|].
    + eapply budgeted_move; [exact Hb | reflexivity | reflexivity |].
      cbn [pc within]. now rewrite Hn.
    + eapply budgeted_fetch; [exact Hb | reflexivity | reflexivity |].
      cbn [pc within]. now rewrite Hn.
    + eapply budgeted_move; [exact Hb | reflexivity | reflexivity |].
      cbn [pc within]. now rewrite Hn.
  - eapply budgeted_move; [exact Hb | reflexivity | reflexivity |].
    cbn [pc within]. now rewrite Hn.
Qed.

Lemma resume_awaiter_budgeted st r : budgeted st -> budgeted (resume_awaiter r st).
Proof.
  intros Hb. unfold resume_awaiter.
  destruct (tasks st !! r) as [c|]; [|exact Hb].
  destruct (awaiter c) as [o|]; [|exact Hb].
  destruct (tasks st !! o) as [t|] eqn:Et; [|exact Hb].
  destruct (pc t) eqn:Ep; try exact Hb.
  destruct (pc c); try exact Hb; now eapply after_refresh_budgeted.
Qed.

Lemma handle_budgeted st ev : well_formed st -> budgeted st -> budgeted (handle ev st).
Proof.
  intros (Hj & Hf & Hnd & Hall) Hb. destruct ev as [ep|r fr]; cbn [handle].
  - eapply budgeted_fetch; [exact Hb | reflexivity | reflexivity |].
    specialize (Hb (next_id st)). unfold pc_of in Hb.
    rewrite (Hf (next_id st)) in Hb by lia. cbn [fmap option_fmap option_map within] in Hb.
    apply Nat.eqb_eq in Hb. cbn [pc within]. now rewrite Hb.
  - unfold deliver. destruct (tasks st !! r) as [t|] eqn:Et; [|exact Hb].
    destruct (pc t) eqn:Epc; try exact Hb; budget_known.
    + apply resume_awaiter_budgeted. unfold after_fetch.
      destruct (verdict (endpoint t) fr) as [j|e|status errorData].
      * eapply budgeted_move; [exact Hb | reflexivity | reflexivity |].
        cbn [pc within]. now rewrite Hn.
      * eapply budgeted_move; [exact Hb | reflexivity | reflexivity |].
        cbn [pc within]. now rewrite Hn.
      * destruct (isRefreshing st); cbn [negb].
        -- eapply budgeted_move; [exact Hb | reflexivity | reflexivity |].
           cbn [pc within]. now rewrite Hn.
        -- pose proof (mapped_below st r t Hf Et) as Hlt.
           assert (Hb1 : budgeted (request_start "/users/refresh-token" (Some r)
                                     (set_isRefreshing true st))).
           { eapply budgeted_fetch; [exact Hb | reflexivity | reflexivity |].
             pose proof (Hb (next_id st)) as Hc. unfold pc_of in Hc.
             rewrite (Hf (next_id st)) in Hc by lia.
             cbn [fmap option_fmap option_map within] in Hc.
             apply Nat.eqb_eq in Hc. cbn [pc within]. cbn -[fetch_count]. 
             unfold fetch_count in *. cbn [fetches set_isRefreshing]. now rewrite Hc. }
           eapply budgeted_move; [exact Hb1 | reflexivity | reflexivity |].
           cbn [pc within].
           rewrite (fetch_count_app (set_isRefreshing true st)
                      (request_start "/users/refresh-token" (Some r) (set_isRefreshing true st))
                      _ eq_refl r).
           cbn [fetch_by next_id set_isRefreshing].
           destruct (decide (next_id st = r)); [lia|].
           unfold fetch_count in *. cbn [fetches set_isRefreshing]. now rewrite Hn.
    + unfold after_retry, refresh_failed.
      destruct fr as [e|status body]; [|destruct (ok status); [destruct body|]];
        (eapply budgeted_move; [exact Hb | reflexivity | reflexivity |]);
        cbn [pc within]; now rewrite Hn.
    + unfold after_queued_retry.
      destruct fr as [e|status body]; [|destruct (ok status); [destruct body|]];
        (eapply budgeted_move; [exact Hb | reflexivity | reflexivity |]);
        cbn [pc within]; now rewrite Hn.
Qed.

Lemma budgeted_init tok : budgeted (init tok).
Proof. intros r. unfold pc_of, fetch_count. cbn -[lookup]. now rewrite lookup_empty. Qed.

Lemma reachable_budgeted evs tok : budgeted (run evs (init tok)).
Proof.
  assert (H : well_formed (run evs (init tok)) /\ budgeted (run evs (init tok))).
  { unfold run. rewrite <- (rev_involutive evs). generalize (rev evs). clear evs.
    intros evs. induction evs as [|ev evs IH]; simpl.
    - split; [apply well_formed_init | apply budgeted_init].
    - rewrite fold_left_app. simpl. destruct IH as [Hw Hs].
      split; [now apply step_well_formed|].
      apply run_jobs_budgeted. now apply handle_budgeted. }
  apply H.
Qed.

End BudgetProperties.

Section StepProperties.
Import Api Steps.
Implicit Types (st : State) (r o q x c : nat) (t : Task).

Lemma run_job_shared st j :
  isRefreshing (run_job st j) = isRefreshing st /\
  failedQueue (run_job st j) = failedQueue st /\
  authToken (run_job st j) = authToken st /\
  hrefs (run_job st j) = hrefs st.
Proof.
  destruct j as [q tok|q e]; simpl;
    (destruct (tasks st !! q) as [t|]; [|auto]); destruct (pc t); auto.
Qed.

Lemma run_jobs_shared st :
  isRefreshing (run_jobs st) = isRefreshing st /\
  failedQueue (run_jobs st) = failedQueue st /\
  authToken (run_jobs st) = authToken st /\
  hrefs (run_jobs st) = hrefs st.
Proof.
  unfold run_jobs.
  change (isRefreshing st) with (isRefreshing (set_jobs [] st)).
  change (failedQueue st) with (failedQueue (set_jobs [] st)).
  change (authToken st) with (authToken (set_jobs [] st)).
  change (hrefs st) with (hrefs (set_jobs [] st)).
  generalize (set_jobs [] st). induction (jobs st) as [|j js IH]; intros s; [auto|].
  cbn [fold_left]. destruct (IH (run_job s j)) as (H1 & H2 & H3 & H4).
  destruct (run_job_shared s j) as (G1 & G2 & G3 & G4).
  repeat split; congruence.
Qed.

Lemma after_refresh_token_moves st0 st o t status errorData outcome :
  authToken st = authToken st0 -> hrefs st = hrefs st0 ->
  token_moves st0 (after_refresh o t status errorData outcome st).
Proof.
  intros Ha Hh. unfold after_refresh. destruct outcome as [[|j]|e]; cbn [properties].
  - right; right. cbn. rewrite Hh. auto.
  - unfold JS.if_truthy. destruct (accessToken_of j) as [tok|];
      [destruct (String.eqb_spec tok "")|].
    + left. cbn. auto.
    + right; left. exists tok. cbn. auto.
    + left. cbn. auto.
  - right; right. cbn. rewrite Hh. auto.
Qed.

Lemma step_token_moves (st : State) (ev : Event) :
  token_moves st (step st ev).
Proof.
  unfold step. destruct (run_jobs_shared (handle ev st)) as (H1 & H2 & H3 & H4).
  assert (H : token_moves st (handle ev st)).
  { destruct ev as [ep|r fr]; cbn [handle].
    - left. split; reflexivity.
    - unfold deliver. destruct (tasks st !! r) as [t|]; [|left; auto].
      destruct (pc t); try (left; split; reflexivity).
      + unfold resume_awaiter.
        set (s1 := after_fetch r t fr st).
        assert (Hs1 : authToken s1 = authToken st /\ hrefs s1 = hrefs st).
        { unfold s1, after_fetch. destruct (verdict (endpoint t) fr); [cbn; auto..|].
          destruct (isRefreshing st); cbn; auto. }
        destruct Hs1 as [Ha Hh].
        destruct (tasks s1 !! r) as [c|]; [|left; auto].
        destruct (awaiter c) as [o|]; [|left; auto].
        destruct (tasks s1 !! o) as [t0|]; [|left; auto].
        destruct (pc t0); try (left; auto; fail).
        destruct (pc c); try (left; auto; fail);
          now apply after_refresh_token_moves.
      + unfold after_retry, refresh_failed.
        destruct fr as [e|status body]; [|destruct (ok status); [destruct body|]];
          try (right; right; cbn; auto; fail).
        left. cbn. auto.
      + unfold after_queued_retry.
        destruct fr as [e|status body]; [|destruct (ok status); [destruct body|]];
          left; cbn; auto. }
  unfold token_moves in *. rewrite H1, H2, H3, H4. exact H.
Qed.

(** A first response that is not a 401 for the refresh protocol settles a
    call made by a user of the client and leaves the shared state alone. *)
Lemma direct_settles st r t fr :
  tasks st !! r = Some t -> pc t = AwaitFetch -> awaiter t = None -> jobs st = [] ->
  (forall status errorData, verdict (endpoint t) fr <> Unauthorized status errorData) ->
  has_settled (step st (Deliver r fr)) r = true /\
  fetches (step st (Deliver r fr)) = fetches st /\
  isRefreshing (step st (Deliver r fr)) = isRefreshing st /\
  failedQueue (step st (Deliver r fr)) = failedQueue st /\
  authToken (step st (Deliver r fr)) = authToken st /\
  hrefs (step st (Deliver r fr)) = hrefs st.
Proof.
  intros Ht Hp Ha Hj Hv. unfold step, handle, deliver. rewrite Ht, Hp.
  unfold after_fetch. destruct (verdict (endpoint t) fr) as [j|e|status errorData] eqn:Ev.
  - unfold resume_awaiter. cbn -[insert lookup]. rewrite lookup_insert_eq. cbn [awaiter].
    rewrite Ha. unfold run_jobs, has_settled, pc_of. cbn -[insert lookup]. rewrite Hj.
    cbn -[insert lookup]. rewrite lookup_insert_eq. auto 10.
  - unfold resume_awaiter, fail. cbn -[insert lookup]. rewrite lookup_insert_eq. cbn [awaiter].
    rewrite Ha. unfold run_jobs, has_settled, pc_of. cbn -[insert lookup]. rewrite Hj.
    cbn -[insert lookup]. rewrite lookup_insert_eq. auto 10.
  - now destruct (Hv status errorData).
Qed.

Lemma exempt_verdict ep fr status errorData :
  JS.includes ep "/login" = true \/ JS.includes ep "/refresh-token" = true ->
  verdict ep fr <> Unauthorized status errorData.
Proof.
  intros Hex. unfold verdict, wants_refresh.
  destruct fr as [e|s body]; [discriminate|].
  destruct (ok s); [destruct body; discriminate|].
  destruct Hex as [-> | ->]; cbn [negb]; rewrite ?andb_false_r; discriminate.
Qed.

(** A call on an endpoint that contains ["/login"] or ["/refresh-token"]
    (the guard of lines 48-52) settles on its first response, whatever that
    response is, a 401 included: nothing is fetched, queued, refreshed,
    stored or redirected. *)
Theorem exempt_endpoints_settle_at_once (st : State) (r : ReqId) (t : Task) (fr : FetchResult) :
  tasks st !! r = Some t -> pc t = AwaitFetch -> awaiter t = None -> jobs st = [] ->
  JS.includes (endpoint t) "/login" = true \/ JS.includes (endpoint t) "/refresh-token" = true ->
  has_settled (step st (Deliver r fr)) r = true /\
  fetches (step st (Deliver r fr)) = fetches st /\
  isRefreshing (step st (Deliver r fr)) = isRefreshing st /\
  failedQueue (step st (Deliver r fr)) = failedQueue st /\
  authToken (step st (Deliver r fr)) = authToken st /\
  hrefs (step st (Deliver r fr)) = hrefs st.
Proof.
  intros Ht Hp Ha Hj Hex. apply (direct_settles st r t fr Ht Hp Ha Hj).
  intros status errorData. now apply exempt_verdict.
Qed.

(** When the owner's retry fails after a successful refresh, the handler
    of line 81 runs as for a failed refresh: the owner and every call parked
    meanwhile are rejected with the retry's error, the token just stored is
    removed, the location is set to ["/login"] once and the client is idle. *)
Theorem failed_retry_signs_out (st : State) (o : ReqId) (t : Task)
    (fr : FetchResult) (err : Error) :
  well_formed st -> tasks st !! o = Some t -> pc t = AwaitRetry ->
  retry_error fr = Some err ->
  let st' := step st (Deliver o fr) in
  pc_of st' o = Some (Rejected err) /\
  (forall q, q ∈ failedQueue st -> pc_of st' q = Some (Rejected err)) /\
  authToken st' = None /\
  hrefs st' = hrefs st ++ ["/login"] /\
  isRefreshing st' = false /\
  failedQueue st' = [] /\
  fetches st' = fetches st.
Proof.
  intros (Hj & Hf & Hnd & Hall) Ht Hp Herr st'.
  assert (Hst' : st' =
    mkState false [] None (hrefs st ++ ["/login"]) (fetches st) (console st ++ [err])
      (retag (Rejected err) (failedQueue st)
         (<[o := mkTask (endpoint t) (awaiter t) (Rejected err)]> (tasks st)))
      (next_id st) []).
  { assert (Hq : forall q, q ∈ failedQueue st -> q <> o).
    { intros q Hin ->. rewrite forallb_elem in Hall.
      destruct (is_queued_task _ _ (Hall o Hin)) as (tq & Htq & Hpq). congruence. }
    assert (Hrun : run_jobs (refresh_failed o t err st) =
      mkState false [] None (hrefs st ++ ["/login"]) (fetches st) (console st ++ [err])
        (retag (Rejected err) (failedQueue st)
           (<[o := mkTask (endpoint t) (awaiter t) (Rejected err)]> (tasks st)))
        (next_id st) []).
    { unfold refresh_failed, run_jobs, fail, processQueue.
      cbn -[retag insert lookup]. rewrite Hj. cbn [app].
      rewrite run_rejects; [reflexivity | exact Hnd |].
      apply forallb_elem. intros q Hin. rewrite forallb_elem in Hall.
      unfold is_queued, pc_of. cbn -[insert lookup].
      rewrite lookup_insert_ne by (apply not_eq_sym; now apply Hq). apply (Hall q Hin). }
    unfold st', step, handle, deliver. rewrite Ht, Hp. unfold after_retry.
    unfold retry_error in Herr.
    destruct fr as [e|status body].
    - injection Herr as ->. exact Hrun.
    - destruct (ok status); [destruct body as [j|e]|].
      + discriminate.
      + injection Herr as ->. exact Hrun.
      + injection Herr as <-. exact Hrun. }
  clearbody st'. subst st'. cbn -[retag insert lookup]. unfold pc_of. cbn -[retag insert lookup].
  assert (Ho : o ∉ failedQueue st).
  { intros Hin. rewrite forallb_elem in Hall.
    destruct (is_queued_task _ _ (Hall o Hin)) as (tq & Htq & Hpq). congruence. }
  split; [rewrite retag_lookup_notin by exact Ho; now rewrite lookup_insert_eq|].
  split; [|auto 10].
  intros q Hin. rewrite forallb_elem in Hall.
  destruct (is_queued_task _ _ (Hall q Hin)) as (tq & Htq & _).
  rewrite retag_pc_in; [reflexivity | exact Hin |].
  rewrite lookup_insert_ne by (intros ->; contradiction). eauto.
Qed.

End StepProperties.

Section StoreMore.
Import AuthStore StoreLogic.
Variable backend : list ApiMethod -> ApiMethod -> ApiReply.

Ltac in_list := repeat first [apply list_elem_of_here | apply list_elem_of_further].

Lemma returns_ret {A} (a : A) w (Q : World -> A -> Prop) : Q w a -> returns (ret a) w Q.
Proof. intros H. exists w, a. auto. Qed.

Lemma returns_bind {A B} (c : M A) (k : A -> M B) w (Q : World -> B -> Prop) :
  returns c w (fun w1 a => returns (k a) w1 Q) -> returns (bind c k) w Q.
Proof.
  intros (w1 & a & Hc & w2 & b & Hk & HQ). exists w2, b. split; [|exact HQ].
  unfold bind. now rewrite Hc.
Qed.

Lemma returns_try_catch {A} (c : M A) (h : Error -> M A) w (Q : World -> A -> Prop) :
  returns c w Q -> returns (try_catch c h) w Q.
Proof.
  intros (w1 & a & Hc & HQ). exists w1, a. split; [|exact HQ].
  unfold try_catch. now rewrite Hc.
Qed.

Lemma returns_weaken {A} (c : M A) w (P Q : World -> A -> Prop) :
  returns c w P -> (forall w' a, P w' a -> Q w' a) -> returns c w Q.
Proof. intros (w1 & a & Hc & HP) H. exists w1, a. auto. Qed.

Lemma logged_only_refl labels w : logged_only labels w w.
Proof. intros l e H. now left. Qed.

Lemma logged_only_trans labels w1 w2 w3 :
  logged_only labels w1 w2 -> logged_only labels w2 w3 -> logged_only labels w1 w3.
Proof.
  intros H12 H23 l e H. destruct (H23 l e H) as [H2|H2]; [now apply H12 | now right].
Qed.

Lemma logged_only_same labels w w' : console w' = console w -> logged_only labels w w'.
Proof. intros Hc l e H. left. now rewrite <- Hc. Qed.

Lemma logged_only_one labels w w' l e :
  console w' = console w ++ [(l, e)] -> l ∈ labels -> logged_only labels w w'.
Proof.
  intros Hc Hl l' e' H. rewrite Hc in H. apply elem_of_app in H as [H|H]; [now left|].
  apply list_elem_of_singleton in H. injection H as -> ->. now right.
Qed.

(** [getCurrentUser] (lines 125-148), by its effects. *)
Lemma getCurrentUser_returns (w : World) :
  returns (getCurrentUser backend) w (fun w' res =>
    calls w' = calls w ++ [ApiGetCurrentUser] /\
    authToken w' = storage (backend (calls w) ApiGetCurrentUser) (authToken w) /\
    isLoading (session w') = isLoading (session w) /\
    (success res = true ->
       isAuthenticated (session w') = true /\ is_Some (user (session w')) /\
       user (session w') = res_user res) /\
    (success res = false -> session w' = session w) /\
    logged_only check_labels w w').
Proof.
  unfold returns, getCurrentUser, try_catch, bind, api, read, set, ret, console_error,
    failure, user_of.
  cbn. destruct (settled (backend (calls w) ApiGetCurrentUser)) as [[|j]|e]; cbn.
  - eexists _, _; (split; [reflexivity|]); cbn.
    repeat split; try discriminate; try (now destruct (session w)).
    eapply logged_only_one; [reflexivity|]. unfold check_labels. in_list.
  - destruct (json_data j) as [d|]; [destruct (data_user d) as [u|]|]; cbn;
      eexists _, _; (split; [reflexivity|]); cbn;
      repeat split; try discriminate; eauto using logged_only_same;
      try (now destruct (session w)).
  - eexists _, _; (split; [reflexivity|]); cbn.
    repeat split; try discriminate; try (now destruct (session w)).
    eapply logged_only_one; [reflexivity|]. unfold check_labels. in_list.
Qed.

(** [refreshAuth] (lines 106-123), by its effects. *)
Lemma refreshAuth_returns (w : World) :
  returns (refreshAuth backend) w (fun w' res =>
    calls w' = calls w ++ [ApiRefreshToken] /\
    isLoading (session w') = isLoading (session w) /\
    (success res = true -> session w' = session w /\ JS.truthy (authToken w') = true) /\
    (session w' = session w \/
     (success res = false /\ authToken w' = None /\
      user (session w') = None /\ isAuthenticated (session w') = false)) /\
    logged_only check_labels w w').
Proof.
  unfold returns, refreshAuth, try_catch, bind, api, read, set, ret, console_error, failure,
    setItem, removeItem, put_token, accessToken_of, JS.if_truthy, JS.truthy.
  cbn. destruct (settled (backend (calls w) ApiRefreshToken)) as [[|j]|e]; cbn.
  - eexists _, _; (split; [reflexivity|]); cbn.
    repeat split; try discriminate; [right; auto|].
    eapply logged_only_one; [reflexivity|]. unfold check_labels. in_list.
  - destruct (json_data j) as [d|]; [destruct (data_accessToken d) as [tok|];
      [destruct (String.eqb tok "") eqn:E|]|]; cbn;
      eexists _, _; (split; [reflexivity|]); cbn; try rewrite E;
      repeat split; try discriminate; eauto using logged_only_same.
  - eexists _, _; (split; [reflexivity|]); cbn.
    repeat split; try discriminate; [right; auto|].
    eapply logged_only_one; [reflexivity|]. unfold check_labels. in_list.
Qed.

(** [checkAuth] (lines 150-177), by its effects. *)
Lemma checkAuth_returns (w : World) :
  returns (checkAuth backend) w (fun w' b =>
    (exists l, calls w' = calls w ++ l /\ check_trace l b /\
               (l = [] <-> JS.truthy (authToken w) = false)) /\
    isLoading (session w') = isLoading (session w) /\
    (JS.truthy (authToken w) = false -> w' = w /\ b = false) /\
    (b = true -> isAuthenticated (session w') = true /\ is_Some (user (session w'))) /\
    (isAuthenticated (session w) = false -> isAuthenticated (session w') = b) /\
    logged_only check_labels w w').
Proof.
  unfold checkAuth. apply returns_bind. unfold getItem at 1. apply returns_ret.
  destruct (JS.truthy (authToken w)) eqn:Etok; cbn [negb].
  2:{ apply returns_ret. split; [exists []; rewrite app_nil_r|].
      - split; [reflexivity|]. split; [left; auto | tauto].
      - repeat split; auto using logged_only_refl; discriminate. }
  apply returns_try_catch, returns_bind.
  eapply returns_weaken; [apply getCurrentUser_returns|].
  intros w1 res1 (Hc1 & _ & Hl1 & Hyes1 & Hno1 & Hlog1).
  destruct (success res1) eqn:E1.
  - apply returns_ret. destruct (Hyes1 eq_refl) as (Ha & Hu & _).
    split; [exists [ApiGetCurrentUser]|].
    + split; [exact Hc1|]. split; [right; left; auto|]. split; discriminate.
    + repeat split; auto; discriminate.
  - specialize (Hno1 eq_refl). apply returns_bind.
    eapply returns_weaken; [apply refreshAuth_returns|].
    intros w2 res2 (Hc2 & Hl2 & Hyes2 & Hsess2 & Hlog2).
    assert (Hlog12 : logged_only check_labels w w2) by (eapply logged_only_trans; eauto).
    destruct (success res2) eqn:E2.
    + destruct (Hyes2 eq_refl) as [Hs2 _]. apply returns_bind.
      eapply returns_weaken; [apply getCurrentUser_returns|].
      intros w3 res3 (Hc3 & _ & Hl3 & Hyes3 & Hno3 & Hlog3).
      apply returns_ret.
      split; [exists [ApiGetCurrentUser; ApiRefreshToken; ApiGetCurrentUser]|].
      * split; [rewrite Hc3, Hc2, Hc1, <- !app_assoc; reflexivity|].
        split; [right; right; right; reflexivity|]. split; discriminate.
      * split; [congruence|]. split; [discriminate|].
        split; [intros Hb; destruct (Hyes3 Hb) as (? & ? & _); auto|].
        split; [|eapply logged_only_trans; eauto].
        intros Hw. destruct (success res3) eqn:E3.
        -- now destruct (Hyes3 eq_refl).
        -- rewrite (Hno3 eq_refl), Hs2, Hno1. exact Hw.
    + apply returns_ret.
      split; [exists [ApiGetCurrentUser; ApiRefreshToken]|].
      * split; [rewrite Hc2, Hc1, <- !app_assoc; reflexivity|].
        split; [right; right; left; auto|]. split; discriminate.
      * split; [congruence|]. split; [discriminate|]. split; [discriminate|].
        split; [|exact Hlog12].
        intros Hw. destruct Hsess2 as [Hs2|(_ & _ & _ & Ha2)]; [|exact Ha2].
        rewrite Hs2, Hno1. exact Hw.
Qed.

(** [initializeAuth] (lines 179-192), by its effects. *)
Lemma initializeAuth_returns (w : World) :
  returns (initializeAuth backend) w (fun w' _ =>
    (exists l, calls w' = calls w ++ l /\ l ∈ initialize_patterns /\
               (JS.truthy (authToken w) = false -> l = [])) /\
    isLoading (session w') = false /\
    (JS.truthy (authToken w) = false ->
       user (session w') = user (session w) /\
       isAuthenticated (session w') = isAuthenticated (session w) /\
       authToken w' = authToken w) /\
    logged_only check_labels w w').
Proof.
  unfold initializeAuth. apply returns_bind. unfold set at 1. apply returns_ret.
  set (w0 := mkWorld _ _ _ _).
  assert (Hbody : returns
            (try_catch
               (bind (checkAuth backend)
                  (fun isAuth => if isAuth then bind (getCurrentUser backend) (fun _ => ret tt)
                                 else ret tt))
               (fun error => console_error "Auth initialization failed:" error)) w0
            (fun w' _ =>
               (exists l, calls w' = calls w ++ l /\ l ∈ initialize_patterns /\
                          (JS.truthy (authToken w) = false -> l = [])) /\
               (JS.truthy (authToken w) = false ->
                  user (session w') = user (session w) /\
                  isAuthenticated (session w') = isAuthenticated (session w) /\
                  authToken w' = authToken w) /\
               logged_only check_labels w w')).
  { apply returns_try_catch, returns_bind.
    eapply returns_weaken; [apply checkAuth_returns|].
    intros w1 b ((l & Hc & Htr & Hnil) & Hload & Hnone & Hyes & _ & Hlog).
    change (calls w0) with (calls w) in Hc. change (authToken w0) with (authToken w) in *.
    assert (Hlog0 : logged_only check_labels w w1) by exact Hlog.
    destruct b.
    - assert (Htok : JS.truthy (authToken w) = true).
      { destruct (JS.truthy (authToken w)) eqn:E; [reflexivity|].
        now destruct (Hnone eq_refl). }
      apply returns_bind. eapply returns_weaken; [apply getCurrentUser_returns|].
      intros w2 res (Hc2 & _ & _ & _ & _ & Hlog2). apply returns_ret.
      split; [|split; [congruence | eapply logged_only_trans; eauto]].
      exists (l ++ [ApiGetCurrentUser]). rewrite Hc2, Hc, <- app_assoc.
      split; [reflexivity|]. split; [|congruence].
      destruct Htr as [[_ ?]|[[-> _]|[[_ ?]| ->]]]; try discriminate;
        unfold initialize_patterns; in_list.
    - apply returns_ret. split; [|split; [|exact Hlog0]].
      + exists l. split; [exact Hc|]. split; [|now apply Hnil].
        destruct Htr as [[-> _]|[[_ ?]|[[-> _]| ->]]]; try discriminate;
          unfold initialize_patterns; in_list.
      + intros Hf. destruct (Hnone Hf) as [-> _]. auto. }
  destruct Hbody as (w1 & u & Hrun & Hex & Hnone & Hlog).
  unfold returns, try_finally. rewrite Hrun. cbn. eexists _, _. split; [reflexivity|].
  cbn. split; [exact Hex|]. split; [reflexivity|]. split; [exact Hnone|].
  intros l e Hin. now apply Hlog.
Qed.

Lemma returns_result {A} (c : M A) w (Q : World -> A -> Prop) :
  returns c w Q -> exists a, snd (c w) = inl a /\ Q (fst (c w)) a.
Proof. intros (w' & a & Hc & HQ). exists a. rewrite Hc. auto. Qed.

(** No operation of the store lets an exception escape. *)
Theorem store_never_throws (w : World) (arg : string) :
  (exists r, snd (login backend arg w) = inl r) /\
  (exists r, snd (signup backend arg w) = inl r) /\
  (exists r, snd (logout backend w) = inl r) /\
  (exists r, snd (refreshAuth backend w) = inl r) /\
  (exists r, snd (getCurrentUser backend w) = inl r) /\
  (exists r, snd (checkAuth backend w) = inl r) /\
  (exists r, snd (initializeAuth backend w) = inl r).
Proof.
  split; [|split; [|split; [|split; [|split; [|split]]]]].
  - unfold login, try_catch, bind, api, read, set, ret, throw, setItem, put_token,
      JS.if_truthy. cbn.
    destruct (settled (backend (calls w) (ApiLogin arg))) as [[|j]|e]; cbn; [eauto| |eauto].
    destruct (user_of j); cbn; [|eauto].
    destruct (accessToken_of j) as [t|]; [destruct (String.eqb t "")|]; cbn; eauto.
  - unfold signup, try_catch, bind, api, read, set, ret. cbn.
    destruct (settled (backend (calls w) (ApiRegister arg))) as [[|j]|e]; cbn; eauto.
  - unfold logout, try_finally, try_catch, bind, api, set, ret, removeItem, put_token,
      console_error. cbn.
    destruct (settled (backend (calls w) ApiLogout)); cbn; eauto.
  - destruct (returns_result _ _ _ (refreshAuth_returns w)) as (r & Hr & _). eauto.
  - destruct (returns_result _ _ _ (getCurrentUser_returns w)) as (r & Hr & _). eauto.
  - destruct (returns_result _ _ _ (checkAuth_returns w)) as (r & Hr & _). eauto.
  - destruct (returns_result _ _ _ (initializeAuth_returns w)) as (r & Hr & _). eauto.
Qed.

(** A login that does not succeed leaves the user and the authenticated
    flag as they were, and the store does not write the token. *)
Theorem failed_login_keeps_session (credentials : string) (w : World) (res : Result) :
  snd (login backend credentials w) = inl res -> success res = false ->
  user (session (fst (login backend credentials w))) = user (session w) /\
  isAuthenticated (session (fst (login backend credentials w))) = isAuthenticated (session w) /\
  authToken (fst (login backend credentials w)) =
    storage (backend (calls w) (ApiLogin credentials)) (authToken w) /\
  res_user res = None /\ is_Some (res_error res).
Proof.
  unfold login, try_catch, bind, api, read, set, ret, throw, setItem, put_token,
    JS.if_truthy. cbn.
  destruct (settled (backend (calls w) (ApiLogin credentials))) as [[|j]|e]; cbn.
  - intros H; injection H as <-. intros _. repeat split; eauto.
  - destruct (user_of j); cbn.
    + destruct (accessToken_of j) as [t|]; [destruct (String.eqb t "")|]; cbn;
        intros H; injection H as <-; discriminate.
    + intros H; injection H as <-. intros _. repeat split; eauto.
  - intros H; injection H as <-. intros _. repeat split; eauto.
Qed.

(** A login response with a user record and no access token signs the
    session in and leaves the stored token to whatever it was. *)
Theorem login_without_token (credentials : string) (w : World) (response : Json)
    (u : BackendUser) :
  settled (backend (calls w) (ApiLogin credentials)) = inl (Obj response) ->
  user_of response = Some u -> JS.truthy (accessToken_of response) = false ->
  snd (login backend credentials w) = inl (mkResult true (Some (project u)) None None) /\
  isAuthenticated (session (fst (login backend credentials w))) = true /\
  user (session (fst (login backend credentials w))) = Some (project u) /\
  authToken (fst (login backend credentials w)) =
    storage (backend (calls w) (ApiLogin credentials)) (authToken w).
Proof.
  intros Hreply Hu Hno.
  unfold login, try_catch, bind, api, read, set, ret, throw, setItem, put_token. cbn.
  rewrite Hreply. cbn. rewrite Hu. cbn.
  unfold JS.truthy, JS.if_truthy in *.
  destruct (accessToken_of response) as [t|]; [destruct (String.eqb t "")|]; cbn;
    try discriminate; auto.
Qed.

(** [signup] (lines 54-91) never signs anybody in: it leaves the user and
    the authenticated flag as they were, the store does not write the
    token, and it makes exactly the registration call. It succeeds exactly
    when that call resolves with a value other than [null]: on [null],
    reading [response.message] (line 61) throws and the handler returns a
    failure, as it does when the call throws. *)
Theorem signup_keeps_session (userData : string) (w : World) :
  exists res,
    snd (signup backend userData w) = inl res /\
    user (session (fst (signup backend userData w))) = user (session w) /\
    isAuthenticated (session (fst (signup backend userData w))) = isAuthenticated (session w) /\
    authToken (fst (signup backend userData w)) =
      storage (backend (calls w) (ApiRegister userData)) (authToken w) /\
    calls (fst (signup backend userData w)) = calls w ++ [ApiRegister userData] /\
    (success res = true <->
       exists j : Json, settled (backend (calls w) (ApiRegister userData)) = inl (Obj j)) /\
    (success res = false <->
       settled (backend (calls w) (ApiRegister userData)) = inl Null \/
       exists e, settled (backend (calls w) (ApiRegister userData)) = inr e) /\
    (success res = true -> is_Some (res_message res) /\ res_message res <> Some "") /\
    (success res = false -> is_Some (res_error res)).
Proof.
  unfold signup, try_catch, bind, api, read, set, ret. cbn.
  destruct (settled (backend (calls w) (ApiRegister userData))) as [[|j]|e]; cbn;
    eexists; (split; [reflexivity|]); cbn; repeat split; eauto; try discriminate.
  - intros (j & Hj). discriminate.
  - intros [H|(e & H)]; discriminate.
  - unfold JS.or_else, JS.if_truthy. destruct (json_message j) as [m|]; [|discriminate].
    destruct (String.eqb_spec m ""); [discriminate|]. congruence.
  - intros (j & Hj). discriminate.
Qed.

(** A call that resolves with [null] is handled as one that throws:
    reading the first property of the response throws a [TypeError] inside
    the [try]. [login] and [signup] return a failure whose error is the
    message of that [TypeError], and [login] leaves the user and the
    authenticated flag as they were; [getCurrentUser] logs the error and
    returns a failure with the session unchanged. *)
Theorem null_response_is_caught (arg : string) (w : World) :
  (settled (backend (calls w) (ApiLogin arg)) = inl Null ->
     snd (login backend arg w) =
       inl (mkResult false None
              (Some "Cannot read properties of null (reading 'data')") None) /\
     user (session (fst (login backend arg w))) = user (session w) /\
     isAuthenticated (session (fst (login backend arg w))) = isAuthenticated (session w)) /\
  (settled (backend (calls w) (ApiRegister arg)) = inl Null ->
     snd (signup backend arg w) =
       inl (mkResult false None
              (Some "Cannot read properties of null (reading 'message')") None)) /\
  (settled (backend (calls w) ApiGetCurrentUser) = inl Null ->
     snd (getCurrentUser backend w) = inl failure /\
     session (fst (getCurrentUser backend w)) = session w /\
     console (fst (getCurrentUser backend w)) =
       console w ++ [("Get current user failed:",
                      mkError "Cannot read properties of null (reading 'data')")]).
Proof.
  split; [|split]; intros Hreply.
  - unfold login, try_catch, bind, api, read, set, ret. cbn. rewrite Hreply. cbn. auto.
  - unfold signup, try_catch, bind, api, read, set, ret. cbn. rewrite Hreply. cbn. auto.
  - unfold getCurrentUser, try_catch, bind, api, read, set, ret, console_error. cbn.
    rewrite Hreply. cbn. split; [reflexivity|]. split; [|reflexivity].
    now destruct (session w).
Qed.

(** [getCurrentUser] by its result: a failure leaves the session alone, a
    success stores the projected user and the authenticated flag. *)
Theorem getCurrentUser_effects (w : World) :
  exists res,
    snd (getCurrentUser backend w) = inl res /\
    calls (fst (getCurrentUser backend w)) = calls w ++ [ApiGetCurrentUser] /\
    authToken (fst (getCurrentUser backend w)) =
      storage (backend (calls w) ApiGetCurrentUser) (authToken w) /\
    (success res = true ->
       isAuthenticated (session (fst (getCurrentUser backend w))) = true /\
       is_Some (user (session (fst (getCurrentUser backend w)))) /\
       user (session (fst (getCurrentUser backend w))) = res_user res) /\
    (success res = false -> session (fst (getCurrentUser backend w)) = session w).
Proof.
  destruct (returns_result _ _ _ (getCurrentUser_returns w))
    as (res & Hres & Hc & Ht & _ & Hyes & Hno & _).
  exists res. auto.
Qed.

(** Whenever [checkAuth] answers authenticated, the store is authenticated
    and holds a user. *)
Theorem checkAuth_true_is_authenticated (w : World) :
  snd (checkAuth backend w) = inl true ->
  isAuthenticated (session (fst (checkAuth backend w))) = true /\
  is_Some (user (session (fst (checkAuth backend w)))).
Proof.
  destruct (returns_result _ _ _ (checkAuth_returns w)) as (b & Hb & _ & _ & _ & Hyes & _).
  rewrite Hb. intros H. injection H as ->. now apply Hyes.
Qed.

(** Started on an unauthenticated session, [checkAuth] leaves the store's
    [isAuthenticated] equal to the answer it returns. *)
Theorem checkAuth_agrees_with_store (w : World) (b : bool) :
  isAuthenticated (session w) = false ->
  snd (checkAuth backend w) = inl b ->
  isAuthenticated (session (fst (checkAuth backend w))) = b.
Proof.
  destruct (returns_result _ _ _ (checkAuth_returns w)) as (b' & Hb & _ & _ & _ & _ & Hag & _).
  rewrite Hb. intros Hw H. injection H as <-. now apply Hag.
Qed.

(** [checkAuth] makes no call, or [me], or [me, refresh], or
    [me, refresh, me], at most three in all; it makes none exactly when no
    token is stored; after [me] alone the answer is authenticated and after
    [me, refresh] it is not. *)
Theorem checkAuth_call_patterns (w : World) :
  exists l b,
    snd (checkAuth backend w) = inl b /\
    calls (fst (checkAuth backend w)) = calls w ++ l /\
    check_trace l b /\
    (l = [] <-> JS.truthy (authToken w) = false) /\
    length l <= 3.
Proof.
  destruct (returns_result _ _ _ (checkAuth_returns w)) as (b & Hb & (l & Hc & Htr & Hnil) & _).
  exists l, b. repeat split; try assumption; try apply Hnil.
  destruct Htr as [[-> _]|[[-> _]|[[-> _]| ->]]]; simpl; lia.
Qed.

(** The [catch] blocks of [checkAuth] (lines 172-176) and of
    [initializeAuth] (lines 187-188) never run: whatever these operations
    log carries a label of [getCurrentUser] or [refreshAuth]. *)
Theorem outer_handlers_never_run (w : World) :
  logged_only check_labels w (fst (checkAuth backend w)) /\
  logged_only check_labels w (fst (initializeAuth backend w)).
Proof.
  split.
  - now destruct (returns_result _ _ _ (checkAuth_returns w)) as (b & _ & _ & _ & _ & _ & _ & H).
  - now destruct (returns_result _ _ _ (initializeAuth_returns w)) as (b & _ & _ & _ & _ & H).
Qed.

(** After [logout], [checkAuth] answers unauthenticated without calling
    the backend and changes nothing. *)
Theorem logout_then_checkAuth (w : World) :
  checkAuth backend (fst (logout backend w)) = (fst (logout backend w), inl false).
Proof.
  assert (H : authToken (fst (logout backend w)) = None).
  { unfold logout, try_finally, try_catch, bind, api, set, ret, removeItem, put_token,
      console_error. cbn. destruct (settled (backend (calls w) ApiLogout)); reflexivity. }
  unfold checkAuth, bind, getItem. rewrite H. reflexivity.
Qed.

(** [initializeAuth] makes at most four API calls, in one of five
    sequences (a successful check is always followed by one more [me]);
    with no stored token it makes none and leaves user, authenticated flag
    and token as they were. *)
Theorem initializeAuth_calls (w : World) :
  exists l,
    calls (fst (initializeAuth backend w)) = calls w ++ l /\
    l ∈ initialize_patterns /\ length l <= 4 /\
    (JS.truthy (authToken w) = false ->
       l = [] /\
       user (session (fst (initializeAuth backend w))) = user (session w) /\
       isAuthenticated (session (fst (initializeAuth backend w))) = isAuthenticated (session w) /\
       authToken (fst (initializeAuth backend w)) = authToken w).
Proof.
  destruct (returns_result _ _ _ (initializeAuth_returns w))
    as (u & _ & (l & Hc & Hl & Hnil) & _ & Hnone & _).
  exists l. split; [exact Hc|]. split; [exact Hl|]. split.
  - unfold initialize_patterns in Hl.
    repeat (apply elem_of_cons in Hl as [->|Hl]; [simpl; lia|]).
    now apply elem_of_nil in Hl.
  - intros Hf. split; [now apply Hnil | now apply Hnone].
Qed.

(** [refreshAuth] never signs a session in: afterwards the session is
    authenticated, or holds a user, only if it did before. *)
Theorem refreshAuth_never_signs_in (w : World) :
  (isAuthenticated (session (fst (refreshAuth backend w))) = true ->
     isAuthenticated (session w) = true) /\
  (forall u, user (session (fst (refreshAuth backend w))) = Some u ->
     user (session w) = Some u).
Proof.
  destruct (returns_result _ _ _ (refreshAuth_returns w)) as (res & _ & _ & _ & _ & Hs & _).
  destruct Hs as [Hs|(_ & _ & Hu & Ha)].
  - rewrite Hs. auto.
  - rewrite Hu, Ha. split; [discriminate|]. intros u; discriminate.
Qed.

End StoreMore.

Section Translation.
Import AuthStore.

Lemma includes_false_pass (m : string) :
  JS.includes m "User does not exist" = false ->
  JS.includes m "Invalid user credentials" = false ->
  JS.includes m "Account is deactivated" = false ->
  JS.includes m "Too many requests" = false ->
  login_error_message m = m.
Proof. intros H1 H2 H3 H4. unfold login_error_message. now rewrite H1, H2, H3, H4. Qed.

(** Translating a translated message changes nothing, for the login and
    for the signup translations. *)
Theorem error_translation_is_stable (m : string) :
  login_error_message (login_error_message m) = login_error_message m /\
  signup_error_message (signup_error_message m) = signup_error_message m.
Proof.
  split.
  - unfold login_error_message at 2 3.
    destruct (JS.includes m "User does not exist") eqn:E1; [reflexivity|].
    destruct (JS.includes m "Invalid user credentials") eqn:E2; [reflexivity|].
    destruct (JS.includes m "Account is deactivated") eqn:E3; [reflexivity|].
    destruct (JS.includes m "Too many requests") eqn:E4; [reflexivity|].
    now apply includes_false_pass.
  - unfold signup_error_message at 2 3.
    destruct (JS.includes m "Username can only contain letters, numbers, and underscores") eqn:E1;
      [reflexivity|].
    destruct (JS.includes m "User with this email or username already exists") eqn:E2;
      [reflexivity|].
    destruct (JS.includes m "Password must be at least") eqn:E3; [reflexivity|].
    destruct (JS.includes m "Invalid email") eqn:E4; [reflexivity|].
    destruct (JS.includes m "Full name is required") eqn:E5; [reflexivity|].
    unfold signup_error_message. now rewrite E1, E2, E3, E4, E5.
Qed.

End Translation.

Section WrapperProperties.
Import Wrappers.

Lemma prefix_slash_head (x : string) (c : ascii) (s : string) :
  Ascii.eqb c "/" = false -> String.prefix (String "/" x) (String c s) = false.
Proof.
  intros Hc. cbn [String.prefix]. destruct (ascii_dec "/" c) as [<-|_]; [|reflexivity].
  rewrite Ascii.eqb_refl in Hc. discriminate.
Qed.

Lemma includes_past_plain (s t x : string) :
  slashless s = true ->
  JS.includes (s ++ t) (String "/" x) = JS.includes t (String "/" x).
Proof.
  induction s as [|c s IH]; intros Hs; [reflexivity|].
  cbn [slashless] in Hs. apply andb_true_iff in Hs as [Hc Hs].
  apply negb_true_iff in Hc.
  change ((String c s ++ t)%string) with (String c (s ++ t)).
  cbn [JS.includes]. rewrite prefix_slash_head by exact Hc. cbn [orb]. now apply IH.
Qed.

Lemma includes_plain (s x : string) :
  slashless s = true -> JS.includes s (String "/" x) = false.
Proof.
  induction s as [|c s IH]; intros Hs; [reflexivity|].
  cbn [slashless] in Hs. apply andb_true_iff in Hs as [Hc Hs].
  apply negb_true_iff in Hc.
  cbn [JS.includes]. rewrite prefix_slash_head by exact Hc. cbn [orb]. now apply IH.
Qed.

Lemma prefix_before_slash (p s rest : string) :
  slashless p = true ->
  String.prefix p (s ++ String "/" rest) = String.prefix p s.
Proof.
  revert p. induction s as [|a s IH]; intros p Hp.
  - destruct p as [|c p]; [reflexivity|].
    cbn [slashless] in Hp. apply andb_true_iff in Hp as [Hc _]. apply negb_true_iff in Hc.
    change (("" ++ String "/" rest)%string) with (String "/" rest).
    cbn [String.prefix]. destruct (ascii_dec c "/") as [->|_]; [|reflexivity].
    rewrite Ascii.eqb_refl in Hc. discriminate.
  - destruct p as [|c p]; [reflexivity|].
    cbn [slashless] in Hp. apply andb_true_iff in Hp as [_ Hp].
    change ((String a s ++ String "/" rest)%string) with (String a (s ++ String "/" rest)).
    cbn [String.prefix]. destruct (ascii_dec c a); [now apply IH | reflexivity].
Qed.

Lemma prefix_along_correct (sub p r : string) :
  String.prefix sub (p ++ r) = prefix_along sub p r.
Proof.
  revert p. induction sub as [|a sub IH]; intros p;
    [cbn [prefix_along]; now destruct (p ++ r)%string|].
  destruct p as [|b p]; [reflexivity|].
  change ((String b p ++ r)%string) with (String b (p ++ r)).
  cbn [String.prefix prefix_along]. rewrite <- IH.
  destruct (ascii_dec a b) as [->|Hne].
  - now rewrite Ascii.eqb_refl.
  - apply Ascii.eqb_neq in Hne. now rewrite Hne.
Qed.

Lemma includes_literal (p r sub : string) : JS.includes (p ++ r) sub = scan p r sub.
Proof.
  induction p as [|c p IH]; [reflexivity|].
  change ((String c p ++ r)%string) with (String c (p ++ r)).
  cbn [JS.includes]. change (String c (p ++ r)) with ((String c p ++ r)%string).
  rewrite prefix_along_correct, IH. reflexivity.
Qed.

Ltac settle_guard :=
  unfold Api.wants_refresh; cbn [Nat.eqb andb];
  repeat match goal with
         | |- context [JS.includes (?p ++ ?r)%string ?sub] =>
             rewrite (includes_literal p r sub)
         end;
  cbn [scan prefix_along Ascii.eqb Bool.eqb andb orb];
  repeat rewrite prefix_before_slash by reflexivity;
  repeat rewrite includes_past_plain by assumption;
  repeat rewrite includes_plain by assumption;
  repeat match goal with
         | |- context [JS.includes ?lit ?sub] =>
             let v := eval vm_compute in (JS.includes lit sub) in
             change (JS.includes lit sub) with v
         end;
  cbn [orb andb negb].

(** For every resource wrapper whose id or query string contains no ["/"],
    a 401 goes to the refresh protocol, except when the wrapper splices an
    id that starts with ["login"] or ["refresh-token"]: the endpoint then
    contains ["/login"] or ["/refresh-token"] and the guard of lines 48-52
    lets the 401 through. *)
Theorem wrapper_refresh_coverage (w : Wrapper) :
  plain_argument w = true ->
  Api.wants_refresh 401 (path w) =
    match id_of w with
    | Some id => negb (String.prefix "login" id || String.prefix "refresh-token" id)
    | None => true
    end.
Proof.
  destruct w; cbn [plain_argument id_of query_of path]; intros H;
    try (vm_compute; reflexivity); settle_guard;
    rewrite ?orb_false_r;
    try reflexivity;
    try (destruct (String.prefix "login" id), (String.prefix "refresh-token" id); reflexivity).
Qed.

End WrapperProperties.

Section GuardProperties.
Import AuthStore StoreLogic Guards.
Variable backend : list ApiMethod -> ApiMethod -> ApiReply.

(** On the same flags the two guards never both show their content: where
    one shows it the other redirects, and each shows the placeholder
    exactly when the other does, that is while loading or checking. *)
Theorem guards_are_complementary (a l c : bool) (location : string) :
  (protected_view a l c location = Children -> guest_view a l c = Navigate "/" None) /\
  (guest_view a l c = Children -> protected_view a l c location = Navigate "/login" (Some location)) /\
  (protected_view a l c location = Spinner <-> guest_view a l c = Spinner) /\
  (protected_view a l c location = Spinner <-> l || c = true).
Proof.
  unfold protected_view, guest_view. destruct a, l, c; cbn; repeat split; try discriminate; auto.
Qed.

(** Mounted on an unauthenticated session that is not loading, a guard
    runs [checkAuth] once and then decides by its answer: the protected
    route shows its content or redirects to ["/login"] with the location,
    the guest route redirects to ["/"] or shows its content; with no stored
    token the answer is unauthenticated and the store is untouched. *)
Theorem guard_follows_checkAuth (w : World) (location : string) :
  isAuthenticated (session w) = false -> isLoading (session w) = false ->
  exists b,
    snd (checkAuth backend w) = inl b /\
    world_after backend w = fst (checkAuth backend w) /\
    protected_after backend location w =
      (if b then Children else Navigate "/login" (Some location)) /\
    guest_after backend w = (if b then Navigate "/" None else Children) /\
    (JS.truthy (authToken w) = false -> b = false /\ world_after backend w = w).
Proof.
  intros Ha Hl.
  destruct (returns_result _ _ _ (checkAuth_returns backend w))
    as (b & Hb & _ & Hload & Hnone & _ & Hag & _).
  exists b. split; [exact Hb|].
  assert (Hrun : verifyAuth backend false false w = (fst (checkAuth backend w), inl false)).
  { destruct (checkAuth backend w) as [w' r] eqn:E. cbn [fst snd] in *. subst r.
    unfold verifyAuth, bind, ret. cbn [negb andb]. now rewrite E. }
  unfold protected_after, guest_after, world_after, checking_after.
  rewrite Ha, Hl, Hrun. cbn [fst snd].
  rewrite Hload, Hl, (Hag Ha). unfold protected_view, guest_view. cbn.
  split; [reflexivity|]. split; [now destruct b|]. split; [now destruct b|].
  intros Hf. destruct (Hnone Hf) as [Hw ->]. auto.
Qed.

(** Mounted on a session that is authenticated or loading, a guard's
    effect calls nothing and leaves the store as it is. *)
Theorem guard_effect_idle (w : World) :
  isAuthenticated (session w) = true \/ isLoading (session w) = true ->
  verifyAuth backend (isAuthenticated (session w)) (isLoading (session w)) w = (w, inl false) /\
  world_after backend w = w /\
  calls (world_after backend w) = calls w.
Proof.
  intros H.
  assert (Hrun : verifyAuth backend (isAuthenticated (session w)) (isLoading (session w)) w
                 = (w, inl false)).
  { unfold verifyAuth, bind, ret.
    destruct H as [-> | ->]; [|rewrite andb_false_r]; reflexivity. }
  unfold world_after. rewrite Hrun. auto.
Qed.

End GuardProperties.

Section ReachableStates.

Import Api Flight Budget Steps.

(** In every state the client reaches, the queue holds each call at most
    once, every call in it is parked with its promise pending, no promise
    reaction is left to run, and call ids not yet handed out are unused. *)
Theorem queue_holds_parked_calls (evs : list Event) (tok : option string) :
  NoDup (failedQueue (run evs (init tok))) /\
  (forall q, q ∈ failedQueue (run evs (init tok)) ->
     pc_of (run evs (init tok)) q = Some Queued) /\
  jobs (run evs (init tok)) = [] /\
  (forall id, next_id (run evs (init tok)) <= id ->
     tasks (run evs (init tok)) !! id = None).
Proof.
  destruct (reachable_well_formed evs tok) as (Hj & Hf & Hnd & Hall).
  split; [exact Hnd|]. split; [|split; [exact Hj | exact Hf]].
  intros q Hin. rewrite forallb_elem in Hall.
  destruct (is_queued_task _ _ (Hall q Hin)) as (t & Ht & Hp).
  unfold pc_of. now rewrite Ht; simpl; rewrite Hp.
Qed.

(** In every state the client reaches, at most one refresh call made by
    the protocol is in flight and at most one call owns the refresh; while
    there is one, [isRefreshing] is set. *)
Theorem refresh_is_single_flight (evs : list Event) (tok : option string) :
  (forall c1 c2, refreshing (run evs (init tok)) c1 = true ->
                 refreshing (run evs (init tok)) c2 = true -> c1 = c2) /\
  (forall c, refreshing (run evs (init tok)) c = true ->
             isRefreshing (run evs (init tok)) = true) /\
  (forall o1 o2, owns (run evs (init tok)) o1 = true ->
                 owns (run evs (init tok)) o2 = true -> o1 = o2) /\
  (forall o, owns (run evs (init tok)) o = true ->
             isRefreshing (run evs (init tok)) = true).
Proof.
  pose proof (reachable_single_flight evs tok) as Hsf.
  pose proof Hsf as (H1 & H2 & H3 & H4).
  split; [exact H4|]. split; [|split; [exact H2 | exact H1]].
  intros c Hc. destruct (refreshing_owned _ c Hsf Hc) as (o & Ho & _). now apply (H1 o).
Qed.

(** In every state the client reaches, no call has fetched more than
    twice: once when made and at most once more as a retry. *)
Theorem at_most_two_fetches (evs : list Event) (tok : option string) (r : ReqId) :
  fetch_count (run evs (init tok)) r <= 2 /\
  (tasks (run evs (init tok)) !! r = None -> fetch_count (run evs (init tok)) r = 0) /\
  (awaits_retry (run evs (init tok)) r = true -> fetch_count (run evs (init tok)) r = 2) /\
  (awaits_first (run evs (init tok)) r = true \/ is_queued (run evs (init tok)) r = true ->
     fetch_count (run evs (init tok)) r = 1).
Proof.
  pose proof (reachable_budgeted evs tok r) as H.
  unfold awaits_retry, awaits_first, is_queued, pc_of in *.
  destruct (tasks (run evs (init tok)) !! r) as [t|]; cbn in H |- *.
  - destruct (pc t); cbn in H;
      try apply Nat.eqb_eq in H;
      try (apply orb_true_iff in H as [H|H]; apply Nat.eqb_eq in H);
      rewrite H; repeat split; try lia; try discriminate;
      try (intros [?|?]; discriminate); auto.
  - apply Nat.eqb_eq in H. rewrite H. repeat split; try lia; try discriminate;
      try (intros [?|?]; discriminate).
Qed.

(** Whatever the state and the event, the stored token and the page
    location move together: either both stay, or a non-empty token from a
    refresh response is stored and the location stays, or the token is
    removed, the location is set to ["/login"] once, and the client is left
    idle with an empty queue. *)
Theorem token_and_location_move_together (st : State) (ev : Event) :
  (authToken (step st ev) = authToken st /\ hrefs (step st ev) = hrefs st) \/
  (exists tok, tok <> "" /\ authToken (step st ev) = Some tok /\
               hrefs (step st ev) = hrefs st) \/
  (authToken (step st ev) = None /\ hrefs (step st ev) = hrefs st ++ ["/login"] /\
   isRefreshing (step st ev) = false /\ failedQueue (step st ev) = []).
Proof. apply step_token_moves. Qed.

(** A refresh that comes back with a body other than [null] that carries
    no access token (lines 58, 87-89, 114): the owner is rejected with what
    line 114 throws for its own 401 (the message of that response's body,
    the generic message, or the [TypeError] of reading [message] when that
    body was [null]), the flag is cleared, nothing is fetched, token and
    location are untouched, and the queue is left as it was, its calls
    still parked. *)
Theorem tokenless_refresh_leaves_queue (st : State) (o child : ReqId) (t : Task)
    (status : nat) (errorData : Value) (fr : FetchResult) (j : Json) :
  refresh_pending st o child ->
  tasks st !! o = Some t -> pc t = AwaitRefresh status errorData ->
  verdict "/users/refresh-token" fr = Returns (Obj j) ->
  JS.truthy (accessToken_of j) = false ->
  let st' := step st (Deliver child fr) in
  pc_of st' o =
    Some (Rejected
            match errorData with
            | Obj body => mkError (JS.or_else (json_message body) (http_error status))
            | Null => mkError "Cannot read properties of null (reading 'message')"
            end) /\
  isRefreshing st' = false /\
  failedQueue st' = failedQueue st /\
  (forall q, q ∈ failedQueue st -> pc_of st' q = Some Queued) /\
  fetches st' = fetches st /\
  authToken st' = authToken st /\
  hrefs st' = hrefs st.
Proof.
  intros Hp Ht Hpc Hv Hfalsy st'.
  destruct (refresh_pending_owner _ _ _ Hp) as (t' & s' & e' & Ht' & Hpc' & Hne & Hq).
  rewrite Ht in Ht'. injection Ht' as <-. rewrite Hpc in Hpc'. injection Hpc' as <- <-.
  destruct Hp as (Hc & _ & Hall & Hnd & Hj).
  assert (Hno : forall (A : Type) (yes : string -> A) (no : A),
             JS.if_truthy (accessToken_of j) yes no = no).
  { intros A yes no. unfold JS.truthy, JS.if_truthy in *.
    destruct (accessToken_of j) as [s|]; [|reflexivity].
    destruct (String.eqb s ""); [reflexivity | discriminate]. }
  assert (Hst' : st' =
    mkState false (failedQueue st) (authToken st) (hrefs st) (fetches st)
      (console st ++ [http_failure errorData status])
      (<[o := mkTask (endpoint t) (awaiter t) (Rejected (http_failure errorData status))]>
         (<[child := mkTask "/users/refresh-token" (Some o) (Resolved j)]> (tasks st)))
      (next_id st) []).
  { unfold st', step, handle, deliver. rewrite Hc. cbn [pc].
    unfold after_fetch. cbn [endpoint]. rewrite Hv.
    unfold resume_awaiter.
    rewrite tasks_set_pc, lookup_insert_eq. cbn [awaiter pc endpoint].
    rewrite lookup_insert_ne by congruence.
    rewrite Ht, Hpc. unfold after_refresh. cbn [properties]. rewrite Hno.
    unfold fail, run_jobs. cbn -[insert lookup http_failure]. rewrite Hj. reflexivity. }
  clearbody st'. subst st'. unfold pc_of. cbn -[insert lookup http_failure].
  split; [rewrite lookup_insert_eq; now destruct errorData|].
  split; [reflexivity|]. split; [reflexivity|].
  split; [|auto].
  intros q Hin. destruct (Hq q Hin) as [Hqo Hqc].
  rewrite !lookup_insert_ne by congruence.
  rewrite forallb_elem in Hall. destruct (is_queued_task _ _ (Hall q Hin)) as (tq & Htq & Hpq).
  now rewrite Htq; simpl; rewrite Hpq.
Qed.

(** A refresh call that resolves with [null]: reading [data] at line 58
    throws a [TypeError] inside the [try], so the handler of lines 81-89
    runs as for a refresh that failed. The owner and every parked call are
    rejected with that error, the stored token is removed, the location is
    set to ["/login"] once, the flag is cleared and the queue is empty;
    nothing is fetched. *)
Theorem null_refresh_response_signs_out (st : State) (o child : ReqId) (fr : FetchResult) :
  refresh_pending st o child ->
  verdict "/users/refresh-token" fr = Returns Null ->
  let st' := step st (Deliver child fr) in
  let err := mkError "Cannot read properties of null (reading 'data')" in
  pc_of st' o = Some (Rejected err) /\
  (forall q, q ∈ failedQueue st -> pc_of st' q = Some (Rejected err)) /\
  authToken st' = None /\
  hrefs st' = hrefs st ++ ["/login"] /\
  isRefreshing st' = false /\
  failedQueue st' = [] /\
  fetches st' = fetches st.
Proof.
  intros Hp Hv st' err.
  destruct (refresh_pending_owner _ _ _ Hp) as (t & status & errorData & Ht & Hpc & Hne & Hq).
  assert (Ho : o ∉ failedQueue st) by (intros Hin; now destruct (Hq o Hin)).
  destruct Hp as (Hc & _ & Hall & Hnd & Hj).
  assert (Hst' : st' =
    mkState false [] None (hrefs st ++ ["/login"]) (fetches st) (console st ++ [err])
      (retag (Rejected err) (failedQueue st)
         (<[o := mkTask (endpoint t) (awaiter t) (Rejected err)]>
            (<[child := mkTask "/users/refresh-token" (Some o) (Resolved Null)]>
               (tasks st))))
      (next_id st) []).
  { unfold st', step, handle, deliver. rewrite Hc. cbn [pc].
    unfold after_fetch. cbn [endpoint]. rewrite Hv.
    unfold resume_awaiter.
    rewrite tasks_set_pc, lookup_insert_eq. cbn [awaiter pc endpoint].
    rewrite lookup_insert_ne by congruence.
    rewrite Ht, Hpc.
    unfold after_refresh, refresh_failed, run_jobs, fail, processQueue.
    cbn -[retag insert lookup]. rewrite Hj. cbn [app].
    rewrite run_rejects; [reflexivity | exact Hnd |].
    apply forallb_elem. intros q Hin. rewrite forallb_elem in Hall.
    destruct (Hq q Hin) as [Hqo Hqc].
    unfold is_queued, pc_of. cbn -[insert lookup].
    rewrite !lookup_insert_ne by congruence. apply (Hall q Hin). }
  clearbody st'. subst st'. cbn -[retag insert lookup]. unfold pc_of. cbn -[retag insert lookup].
  split; [rewrite retag_lookup_notin by exact Ho; now rewrite lookup_insert_eq|].
  split; [|auto 10].
  intros q Hin. destruct (Hq q Hin) as [Hqo Hqc].
  rewrite forallb_elem in Hall. destruct (is_queued_task _ _ (Hall q Hin)) as (tq & Htq & _).
  rewrite retag_pc_in; [reflexivity | exact Hin |].
  rewrite !lookup_insert_ne by congruence. eauto.
Qed.

End ReachableStates.

(** *** Further properties on concrete inputs *)

Section MoreExamples.

Import Api Steps Samples MoreSamples.

Lemma exempt_endpoints_settle_at_once_witness :
  has_settled (step login_pending (Deliver 0 wrong_password)) 0 = true /\
  fetches (step login_pending (Deliver 0 wrong_password)) = fetches login_pending /\
  isRefreshing (step login_pending (Deliver 0 wrong_password)) = false /\
  hrefs (step login_pending (Deliver 0 wrong_password)) = [].
Proof.
  destruct (exempt_endpoints_settle_at_once login_pending 0
              (mkTask "/users/login" None AwaitFetch) wrong_password
              eq_refl eq_refl eq_refl eq_refl (or_introl eq_refl))
    as (Hs & Hf & Hr & _ & _ & Hh).
  split; [exact Hs|]. split; [exact Hf|]. split; [exact Hr | exact Hh].
Defined.

Lemma failed_retry_signs_out_witness :
  pc_of (step retrying (Deliver 0 unavailable)) 0 =
    Some (Rejected (mkError "Database unavailable")) /\
  pc_of (step retrying (Deliver 0 unavailable)) 1 =
    Some (Rejected (mkError "Database unavailable")) /\
  authToken (step retrying (Deliver 0 unavailable)) = None /\
  hrefs (step retrying (Deliver 0 unavailable)) = ["/login"].
Proof.
  destruct (failed_retry_signs_out retrying 0 (mkTask "/products/1" None AwaitRetry)
              unavailable (mkError "Database unavailable")
              (reachable_well_formed retrying_events (Some "old")) eq_refl eq_refl eq_refl)
    as (Ho & Hq & Htok & Hh & _).
  split; [exact Ho|]. split; [|split; [exact Htok | exact Hh]].
  apply Hq. change (1 ∈ [1]). apply list_elem_of_here.
Defined.

Lemma tokenless_refresh_leaves_queue_witness :
  pc_of (step burst (Deliver 3 tokenless)) 0 = Some (Rejected (mkError "jwt expired")) /\
  isRefreshing (step burst (Deliver 3 tokenless)) = false /\
  failedQueue (step burst (Deliver 3 tokenless)) = [1; 2] /\
  pc_of (step burst (Deliver 3 tokenless)) 2 = Some Queued.
Proof.
  destruct (tokenless_refresh_leaves_queue burst 0 3
              (mkTask "/products/1" None (AwaitRefresh 401 (mkJson (Some "jwt expired") None)))
              401 (mkJson (Some "jwt expired") None) tokenless empty_json
              burst_is_pending eq_refl eq_refl eq_refl eq_refl)
    as (Ho & Hr & Hq & Hall & _).
  split; [exact Ho|]. split; [exact Hr|]. split; [exact Hq|].
  apply Hall. change (2 ∈ [1; 2]). apply list_elem_of_further, list_elem_of_here.
Defined.

Lemma null_refresh_response_signs_out_witness :
  pc_of (step burst (Deliver 3 nothing)) 0 =
    Some (Rejected (mkError "Cannot read properties of null (reading 'data')")) /\
  pc_of (step burst (Deliver 3 nothing)) 2 =
    Some (Rejected (mkError "Cannot read properties of null (reading 'data')")) /\
  authToken (step burst (Deliver 3 nothing)) = None /\
  hrefs (step burst (Deliver 3 nothing)) = ["/login"] /\
  failedQueue (step burst (Deliver 3 nothing)) = [].
Proof.
  destruct (null_refresh_response_signs_out burst 0 3 nothing burst_is_pending eq_refl)
    as (Ho & Hq & Htok & Hh & _ & Hqueue & _).
  split; [exact Ho|]. split; [|split; [exact Htok | split; [exact Hh | exact Hqueue]]].
  apply Hq. change (2 ∈ [1; 2]). apply list_elem_of_further, list_elem_of_here.
Defined.

Lemma wrapper_refresh_coverage_witness :
  wants_refresh 401 (Wrappers.path (Wrappers.toggleProductStatus "64af01")) = true /\
  wants_refresh 401 (Wrappers.path (Wrappers.getUser "login")) = false.
Proof.
  split.
  - apply (wrapper_refresh_coverage (Wrappers.toggleProductStatus "64af01") eq_refl).
  - apply (wrapper_refresh_coverage (Wrappers.getUser "login") eq_refl).
Defined.

End MoreExamples.

Section MoreStoreExamples.

Import AuthStore StoreLogic Guards Samples MoreSamples.

Lemma failed_login_keeps_session_witness :
  user (session (fst (login (never (mkError "Invalid user credentials")) "c" signed_in))) =
    user (session signed_in) /\
  isAuthenticated (session (fst (login (never (mkError "Invalid user credentials")) "c" signed_in)))
    = true /\
  authToken (fst (login (never (mkError "Invalid user credentials")) "c" signed_in)) = Some "old".
Proof.
  destruct (failed_login_keeps_session (never (mkError "Invalid user credentials")) "c" signed_in
              (mkResult false None (Some "Invalid username or password.") None)
              eq_refl eq_refl)
    as (Hu & Ha & Ht & _).
  split; [exact Hu|]. split; [exact Ha | exact Ht].
Defined.

Lemma login_without_token_witness :
  isAuthenticated (session (fst (login (always user_only_body) "c" signed_out))) = true /\
  authToken (fst (login (always user_only_body) "c" signed_out)) = None.
Proof.
  destruct (login_without_token (always user_only_body) "c" signed_out user_only_body
              admin_record eq_refl eq_refl eq_refl)
    as (_ & Ha & _ & Ht).
  split; [exact Ha | exact Ht].
Defined.

Lemma checkAuth_true_is_authenticated_witness :
  isAuthenticated (session (fst (checkAuth (always login_body) returning))) = true /\
  is_Some (user (session (fst (checkAuth (always login_body) returning)))).
Proof.
  apply (checkAuth_true_is_authenticated (always login_body) returning eq_refl).
Defined.

Lemma checkAuth_agrees_with_store_witness :
  isAuthenticated (session (fst (checkAuth (never (mkError "Unauthorized request")) returning)))
    = false.
Proof.
  apply (checkAuth_agrees_with_store (never (mkError "Unauthorized request")) returning false
           eq_refl eq_refl).
Defined.

Lemma guard_follows_checkAuth_witness :
  protected_after (always login_body) "/products" returning = Children /\
  protected_after (never (mkError "Unauthorized request")) "/products" returning =
    Navigate "/login" (Some "/products") /\
  guest_after (always login_body) returning = Navigate "/" None.
Proof.
  destruct (guard_follows_checkAuth (always login_body) returning "/products" eq_refl eq_refl)
    as (b & Hb & _ & Hp & Hg & _).
  destruct (guard_follows_checkAuth (never (mkError "Unauthorized request")) returning
              "/products" eq_refl eq_refl)
    as (b' & Hb' & _ & Hp' & _).
  injection Hb as <-. injection Hb' as <-.
  split; [exact Hp|]. split; [exact Hp' | exact Hg].
Defined.

Lemma guard_effect_idle_witness :
  world_after (always login_body) signed_in = signed_in /\
  calls (world_after (always login_body) signed_in) = [].
Proof.
  destruct (guard_effect_idle (always login_body) signed_in (or_introl eq_refl))
    as (_ & Hw & Hc).
  split; [exact Hw | exact Hc].
Defined.

End MoreStoreExamples.
